(** * The cab dashboard of solutions-pubsub-websockets (src/web/cabdash.js)

    A shallow embedding of the front-end script: its global variables, the
    registry object [rides], the per-event functions ([processRide],
    [sequence], [updateStats], [updateMeterTotal], [flashMessage]), the
    connection toggle ([connect], [clearStats], [clearCards]), the periodic
    sampler ([cycle], [refreshCard]) and the markup helpers
    ([makePassengers], [formatCoordinate], [headerIcon]).

    Conventions of the embedding.
    - A JavaScript number is a value of [num]: an exact rational, or one of
      [PInf], [NInf], [NaN].  Rounding of finite results and the sign of zero
      are not represented: every concrete scenario below uses values that a
      double holds exactly, and a general statement speaks of a finite result
      only as the sum, difference or quotient the script computes.
    - The counters [activeRides], [messageSeq] and [totalUpdates] only ever
      change by one and are integers ([Z]).
    - [rides] is a plain object used as a map.  It is kept as the list of its
      own properties in creation order ([rides]) together with its prototype
      ([rides_proto]): [Object.prototype], or the ride that an assignment to
      the name ["__proto__"] has put in its place.  [lookup] reads a name as
      the script does, own properties first and the prototype chain after;
      [Object_keys] gives the order in which JavaScript enumerates the own
      properties.
    - An event carries, next to the text of its timestamp, what
      [new Date(timestamp).toISOString()] makes of it in the browser at hand
      ([isodate]); on an invalid date that call throws.
    - Wall-clock quantities ([lag], [lastRefresh], the message rate) are left
      out; nothing below depends on them. *)

From Stdlib Require Import ZArith QArith Qround Qabs List String Ascii Bool Lia.
From Stdlib Require Import DecimalString Permutation Sorted.
Import ListNotations.
Open Scope string_scope.
Open Scope Z_scope.

(** ** Numbers *)

Module Num.

Inductive num : Type :=
| Fin (q : Q)
| PInf
| NInf
| NaN.

Definition of_Z (z : Z) : num := Fin (inject_Z z).

(** [a + b] *)
Definition add (a b : num) : num :=
  match a, b with
  | NaN, _ | _, NaN => NaN
  | Fin x, Fin y => Fin (Qred (x + y))
  | PInf, NInf | NInf, PInf => NaN
  | PInf, _ | _, PInf => PInf
  | NInf, _ | _, NInf => NInf
  end.

(** [a - b] *)
Definition sub (a b : num) : num :=
  match a, b with
  | NaN, _ | _, NaN => NaN
  | Fin x, Fin y => Fin (Qred (x - y))
  | PInf, PInf | NInf, NInf => NaN
  | PInf, _ | _, NInf => PInf
  | NInf, _ | _, PInf => NInf
  end.

(** Sign of a rational: [Lt], [Eq] or [Gt] against zero. *)
Definition sgn (x : Q) : comparison := (Qnum x ?= 0)%Z.

(** [a / b].  A zero divisor is the positive zero: the divisors of this
    program are counters and totals that start at [0] and change by addition
    and subtraction, which never yield the negative zero. *)
Definition div (a b : num) : num :=
  match a, b with
  | NaN, _ | _, NaN => NaN
  | Fin x, Fin y =>
      match sgn y with
      | Eq => match sgn x with Eq => NaN | Gt => PInf | Lt => NInf end
      | _ => Fin (Qred (x / y))
      end
  | Fin _, _ => Fin 0
  | _, PInf | _, NInf => NaN
  | PInf, Fin y => match sgn y with Lt => NInf | _ => PInf end
  | NInf, Fin y => match sgn y with Lt => PInf | _ => NInf end
  end.

(** Decimal digits of a natural number. *)
Definition digits (n : N) : string := NilEmpty.string_of_uint (N.to_uint n).

(** Two decimal digits, padded with a zero. *)
Definition digits2 (n : N) : string :=
  if (n <? 10)%N then "0" ++ digits n else digits n.

(** [x.toFixed(2)]: a value that is not finite prints as [Number::toString]
    does; a negative value prints a minus sign and its magnitude; the
    magnitude is rounded to the nearest hundredth, the larger one on a tie.
    (From 1e21 on JavaScript prints an exponent instead; totals of that size
    are outside what the feed delivers and print here in full.) *)
Definition toFixed2 (a : num) : string :=
  match a with
  | NaN => "NaN"
  | PInf => "Infinity"
  | NInf => "-Infinity"
  | Fin x =>
      let s := match sgn x with Lt => "-" | _ => "" end in
      let n := Z.to_N (Qfloor (Qabs x * 100 + (1 # 2))) in
      s ++ digits (n / 100)%N ++ "." ++ digits2 (n mod 100)%N
  end.

(** Semantic equality of two numbers ([===] without rounding). *)
Definition eqb (a b : num) : bool :=
  match a, b with
  | Fin x, Fin y => Qeq_bool x y
  | PInf, PInf | NInf, NInf => true
  | _, _ => false
  end.

End Num.
Import Num.


(** ** Objects used as maps

    The own properties of a plain object, in the order they were created.
    Assigning to an existing property keeps its place; a new property goes
    last; [delete] removes it. *)

Module Obj.

Section Props.
Context {A : Type}.

Definition t : Type := list (string * A).

Definition empty : t := [].

(** [o[k]] *)
Fixpoint get (k : string) (o : t) : option A :=
  match o with
  | [] => None
  | (k', v) :: o' => if String.eqb k k' then Some v else get k o'
  end.

(** [o[k] = v] *)
Fixpoint set (k : string) (v : A) (o : t) : t :=
  match o with
  | [] => [(k, v)]
  | (k', v') :: o' =>
      if String.eqb k k' then (k', v) :: o' else (k', v') :: set k v o'
  end.

(** [delete o[k]] *)
Fixpoint delete (k : string) (o : t) : t :=
  match o with
  | [] => []
  | (k', v') :: o' =>
      if String.eqb k k' then o' else (k', v') :: delete k o'
  end.

(** Names in creation order. *)
Definition names (o : t) : list string := map fst o.

End Props.

Arguments t A : clear implicits.

Definition digit_of (c : ascii) : option N :=
  let n := N_of_ascii c in
  if ((48 <=? n) && (n <=? 57))%N then Some (n - 48)%N else None.

Fixpoint parse_digits (acc : N) (s : string) : option N :=
  match s with
  | EmptyString => Some acc
  | String c s' =>
      match digit_of c with
      | Some d => parse_digits (acc * 10 + d)%N s'
      | None => None
      end
  end.

(** A property name is an array index when it is the canonical decimal
    numeral of an integer below 2^32 - 1. *)
Definition array_index (s : string) : option N :=
  match s with
  | EmptyString => None
  | String "0" EmptyString => Some 0%N
  | String "0" _ => None
  | _ =>
      match parse_digits 0 s with
      | Some n => if (n <? 4294967295)%N then Some n else None
      | None => None
      end
  end.

Definition is_index (s : string) : bool :=
  match array_index s with Some _ => true | None => false end.

(** Insertion of an indexed name into a list sorted by index. *)
Fixpoint insert_index (x : N * string) (l : list (N * string)) : list (N * string) :=
  match l with
  | [] => [x]
  | y :: l' => if (fst x <=? fst y)%N then x :: l else y :: insert_index x l'
  end.

Fixpoint sort_index (l : list (N * string)) : list (N * string) :=
  match l with
  | [] => []
  | x :: l' => insert_index x (sort_index l')
  end.

(** The names of [l] that are array indices, each with its index. *)
Fixpoint indexed (l : list string) : list (N * string) :=
  match l with
  | [] => []
  | k :: l' =>
      match array_index k with
      | Some n => (n, k) :: indexed l'
      | None => indexed l'
      end
  end.

(** [Object.keys(o)]: the array indices in ascending numeric order, then the
    other names in creation order. *)
Definition Object_keys {A : Type} (o : t A) : list string :=
  map snd (sort_index (indexed (names o)))
  ++ filter (fun k => negb (is_index k)) (names o).

End Obj.

(** [a.slice(start)] *)
Definition slice {A : Type} (start : Z) (a : list A) : list A :=
  let len := Z.of_nat (List.length a) in
  let k := if start <? 0 then Z.max (len + start) 0 else Z.min start len in
  skipn (Z.to_nat k) a.


(** ** Data *)

(** A decoded event, and the record the registry keeps for a ride.
    [latitude] and [longitude] are numbers, kept as the text [toString()]
    gives.  [isodate] is what [new Date(timestamp).toISOString()] gives:
    [None] when the date is invalid and the call throws [RangeError].
    [sequenceNumber] is [None] until [sequence] tags the ride. *)
Record Ride : Type := mkRide {
  ride_id : string;
  ride_status : string;
  timestamp : string;
  isodate : option string;
  latitude : string;
  longitude : string;
  meter_reading : num;
  passenger_count : num;
  sequenceNumber : option Z
}.

(** What [flashMessage] writes into the alert element. *)
Record Flash : Type := mkFlash {
  flash_title : string;
  flash_icon : string;
  flash_ride : string;
  flash_latlng : string
}.

(** A ride card of the container: the index its element ids carry and, as
    one record, what its elements display (identifier, status icon,
    timestamp, meter reading, passengers, sequence number).  The tooltips
    are not represented. *)
Record Card : Type := mkCard {
  card_index : nat;
  card_ride : Ride
}.

(** The statistic labels as [updateStats] writes them. *)
Record Labels : Type := mkLabels {
  lbl_activeRides : Z;
  lbl_totalMeter : string;
  lbl_totalPassengers : num;
  lbl_avgDensity : string;
  lbl_mpp : string
}.

(** Calls made to the presentation functions, oldest first. *)
Inductive Call : Type :=
| Flashed (f : Flash)
| Refreshed (cardIndex : nat) (ride : Ride).

(** The page: the alert element, the children of the card container, the
    statistic labels ([None] while the page still shows its own markup) and
    the presentation calls made so far. *)
Record Page : Type := mkPage {
  alert_message : option Flash;
  alert_opacity : Z;
  containerDiv : list Card;
  statLabels : option Labels;
  presented : list Call
}.

(** [WebSocket.readyState]: 0, 1, 2, 3. *)
Inductive ReadyState : Type := CONNECTING | OPEN | CLOSING | CLOSED.

(** The global variables of the script, and the page.  [rides_proto] is the
    prototype of the object [rides]: [None] for [Object.prototype], which
    every [{}] starts with. *)
Record World : Type := mkWorld {
  rides : Obj.t Ride;
  rides_proto : option Ride;
  totalMeter : num;
  totalUpdates : Z;
  totalPassengers : num;
  avgDensity : string;
  meterPerPassenger : num;
  messageSeq : Z;
  activeRides : Z;
  ws : option ReadyState;
  page : Page
}.

Definition maxNumRideCards : Z := 9.

(** The variables as the script initialises them, on a page with an empty
    card container. *)
Definition initial : World :=
  {| rides := Obj.empty;
     rides_proto := None;
     totalMeter := Fin 0;
     totalUpdates := 0;
     totalPassengers := Fin 0;
     avgDensity := "0";
     meterPerPassenger := Fin 0;
     messageSeq := 1;
     activeRides := 0;
     ws := None;
     page := {| alert_message := None; alert_opacity := 0;
                containerDiv := []; statLabels := None; presented := [] |} |}.

(** *** Field updates *)

Definition upd_alert_message (f : option Flash -> option Flash) (p : Page) : Page :=
  {| alert_message := f (alert_message p);
     alert_opacity := alert_opacity p;
     containerDiv := containerDiv p;
     statLabels := statLabels p;
     presented := presented p |}.

Definition upd_alert_opacity (f : Z -> Z) (p : Page) : Page :=
  {| alert_message := alert_message p;
     alert_opacity := f (alert_opacity p);
     containerDiv := containerDiv p;
     statLabels := statLabels p;
     presented := presented p |}.

Definition upd_containerDiv (f : list Card -> list Card) (p : Page) : Page :=
  {| alert_message := alert_message p;
     alert_opacity := alert_opacity p;
     containerDiv := f (containerDiv p);
     statLabels := statLabels p;
     presented := presented p |}.

Definition upd_statLabels (f : option Labels -> option Labels) (p : Page) : Page :=
  {| alert_message := alert_message p;
     alert_opacity := alert_opacity p;
     containerDiv := containerDiv p;
     statLabels := f (statLabels p);
     presented := presented p |}.

Definition upd_presented (f : list Call -> list Call) (p : Page) : Page :=
  {| alert_message := alert_message p;
     alert_opacity := alert_opacity p;
     containerDiv := containerDiv p;
     statLabels := statLabels p;
     presented := f (presented p) |}.

Definition upd_rides (f : Obj.t Ride -> Obj.t Ride) (w : World) : World :=
  {| rides := f (rides w);
     rides_proto := rides_proto w;
     totalMeter := totalMeter w;
     totalUpdates := totalUpdates w;
     totalPassengers := totalPassengers w;
     avgDensity := avgDensity w;
     meterPerPassenger := meterPerPassenger w;
     messageSeq := messageSeq w;
     activeRides := activeRides w;
     ws := ws w;
     page := page w |}.

Definition upd_rides_proto (f : option Ride -> option Ride) (w : World) : World :=
  {| rides := rides w;
     rides_proto := f (rides_proto w);
     totalMeter := totalMeter w;
     totalUpdates := totalUpdates w;
     totalPassengers := totalPassengers w;
     avgDensity := avgDensity w;
     meterPerPassenger := meterPerPassenger w;
     messageSeq := messageSeq w;
     activeRides := activeRides w;
     ws := ws w;
     page := page w |}.

Definition upd_totalMeter (f : num -> num) (w : World) : World :=
  {| rides := rides w;
     rides_proto := rides_proto w;
     totalMeter := f (totalMeter w);
     totalUpdates := totalUpdates w;
     totalPassengers := totalPassengers w;
     avgDensity := avgDensity w;
     meterPerPassenger := meterPerPassenger w;
     messageSeq := messageSeq w;
     activeRides := activeRides w;
     ws := ws w;
     page := page w |}.

Definition upd_totalUpdates (f : Z -> Z) (w : World) : World :=
  {| rides := rides w;
     rides_proto := rides_proto w;
     totalMeter := totalMeter w;
     totalUpdates := f (totalUpdates w);
     totalPassengers := totalPassengers w;
     avgDensity := avgDensity w;
     meterPerPassenger := meterPerPassenger w;
     messageSeq := messageSeq w;
     activeRides := activeRides w;
     ws := ws w;
     page := page w |}.

Definition upd_totalPassengers (f : num -> num) (w : World) : World :=
  {| rides := rides w;
     rides_proto := rides_proto w;
     totalMeter := totalMeter w;
     totalUpdates := totalUpdates w;
     totalPassengers := f (totalPassengers w);
     avgDensity := avgDensity w;
     meterPerPassenger := meterPerPassenger w;
     messageSeq := messageSeq w;
     activeRides := activeRides w;
     ws := ws w;
     page := page w |}.

Definition upd_avgDensity (f : string -> string) (w : World) : World :=
  {| rides := rides w;
     rides_proto := rides_proto w;
     totalMeter := totalMeter w;
     totalUpdates := totalUpdates w;
     totalPassengers := totalPassengers w;
     avgDensity := f (avgDensity w);
     meterPerPassenger := meterPerPassenger w;
     messageSeq := messageSeq w;
     activeRides := activeRides w;
     ws := ws w;
     page := page w |}.

Definition upd_meterPerPassenger (f : num -> num) (w : World) : World :=
  {| rides := rides w;
     rides_proto := rides_proto w;
     totalMeter := totalMeter w;
     totalUpdates := totalUpdates w;
     totalPassengers := totalPassengers w;
     avgDensity := avgDensity w;
     meterPerPassenger := f (meterPerPassenger w);
     messageSeq := messageSeq w;
     activeRides := activeRides w;
     ws := ws w;
     page := page w |}.

Definition upd_messageSeq (f : Z -> Z) (w : World) : World :=
  {| rides := rides w;
     rides_proto := rides_proto w;
     totalMeter := totalMeter w;
     totalUpdates := totalUpdates w;
     totalPassengers := totalPassengers w;
     avgDensity := avgDensity w;
     meterPerPassenger := meterPerPassenger w;
     messageSeq := f (messageSeq w);
     activeRides := activeRides w;
     ws := ws w;
     page := page w |}.

Definition upd_activeRides (f : Z -> Z) (w : World) : World :=
  {| rides := rides w;
     rides_proto := rides_proto w;
     totalMeter := totalMeter w;
     totalUpdates := totalUpdates w;
     totalPassengers := totalPassengers w;
     avgDensity := avgDensity w;
     meterPerPassenger := meterPerPassenger w;
     messageSeq := messageSeq w;
     activeRides := f (activeRides w);
     ws := ws w;
     page := page w |}.

Definition upd_ws (f : option ReadyState -> option ReadyState) (w : World) : World :=
  {| rides := rides w;
     rides_proto := rides_proto w;
     totalMeter := totalMeter w;
     totalUpdates := totalUpdates w;
     totalPassengers := totalPassengers w;
     avgDensity := avgDensity w;
     meterPerPassenger := meterPerPassenger w;
     messageSeq := messageSeq w;
     activeRides := activeRides w;
     ws := f (ws w);
     page := page w |}.

Definition upd_page (f : Page -> Page) (w : World) : World :=
  {| rides := rides w;
     rides_proto := rides_proto w;
     totalMeter := totalMeter w;
     totalUpdates := totalUpdates w;
     totalPassengers := totalPassengers w;
     avgDensity := avgDensity w;
     meterPerPassenger := meterPerPassenger w;
     messageSeq := messageSeq w;
     activeRides := activeRides w;
     ws := ws w;
     page := f (page w) |}.
Definition set_sequenceNumber (n : Z) (r : Ride) : Ride :=
  {| ride_id := ride_id r;
     ride_status := ride_status r;
     timestamp := timestamp r;
     isodate := isodate r;
     latitude := latitude r;
     longitude := longitude r;
     meter_reading := meter_reading r;
     passenger_count := passenger_count r;
     sequenceNumber := Some n |}.

Notation "w |> f" := (f w) (at level 45, left associativity, only parsing).
Notation "'const' v" := (fun _ => v) (at level 10, v at level 9, only parsing).

(** ** Reading and writing the registry *)

(** What reading a property gives: a ride object, some other value of which
    only the truthiness matters here (a function, a string, a number), or
    [undefined]. *)
Inductive Value : Type :=
| VRide (r : Ride)
| VOther (truthy : bool)
| VUndefined.

(** [!!v] *)
Definition truthy (v : Value) : bool :=
  match v with
  | VRide _ => true
  | VOther b => b
  | VUndefined => false
  end.

(** The properties of [Object.prototype]: eleven functions and the accessor
    [__proto__]. *)
Definition Object_prototype : list string :=
  ["constructor"; "__defineGetter__"; "__defineSetter__"; "hasOwnProperty";
   "__lookupGetter__"; "__lookupSetter__"; "isPrototypeOf";
   "propertyIsEnumerable"; "toString"; "valueOf"; "__proto__";
   "toLocaleString"].

(** A name that every plain object inherits. *)
Definition inherited (k : string) : bool :=
  existsb (String.eqb k) Object_prototype.

(** Truthiness of a string, of a number, and of a number known by the text
    [toString()] gives. *)
Definition nonempty (s : string) : bool := negb (s =? "")%string.

Definition nonzero (a : num) : bool :=
  match a with
  | Fin q => negb (Qeq_bool q 0)
  | NaN => false
  | _ => true
  end.

Definition nonzero_text (t : string) : bool :=
  negb (t =? "0")%string && negb (t =? "NaN")%string.

(** [p[k]] for a ride object [p] and the name [k] of one of its own
    properties; [None] when [p] has no such property. *)
Definition field (p : Ride) (k : string) : option Value :=
  if (k =? "ride_id")%string then Some (VOther (nonempty (ride_id p)))
  else if (k =? "ride_status")%string then Some (VOther (nonempty (ride_status p)))
  else if (k =? "timestamp")%string then Some (VOther (nonempty (timestamp p)))
  else if (k =? "latitude")%string then Some (VOther (nonzero_text (latitude p)))
  else if (k =? "longitude")%string then Some (VOther (nonzero_text (longitude p)))
  else if (k =? "meter_reading")%string then Some (VOther (nonzero (meter_reading p)))
  else if (k =? "passenger_count")%string then Some (VOther (nonzero (passenger_count p)))
  else if (k =? "sequenceNumber")%string then
    option_map (fun n => VOther (negb (n =? 0))) (sequenceNumber p)
  else None.

(** [o[k]] for the object with the own properties [own] and the prototype
    [proto].  An own property wins.  Otherwise the prototype chain answers:
    a ride that has been made the prototype answers for [__proto__] (the
    getter returns the prototype itself) and for its own properties, and
    [Object.prototype], at the end of every chain, answers for its names,
    all of whose values are truthy. *)
Definition read (own : Obj.t Ride) (proto : option Ride) (k : string) : Value :=
  match Obj.get k own with
  | Some r => VRide r
  | None =>
      let base := if inherited k then VOther true else VUndefined in
      match proto with
      | None => base
      | Some p =>
          if (k =? "__proto__")%string then VRide p
          else match field p k with
               | Some v => v
               | None => base
               end
      end
  end.

(** ** The script *)

(** [rides[k]] *)
Definition lookup (w : World) (k : string) : Value :=
  read (rides w) (rides_proto w) k.

(** [rides[k]] taken as a condition. *)
Definition tracked (w : World) (k : string) : bool := truthy (lookup w k).

(** [rides[k] = ride].  The name [__proto__] is an accessor of
    [Object.prototype]: its setter makes the ride the prototype of [rides]
    and creates no property.  Any other name becomes, or stays, an own
    property. *)
Definition assign (k : string) (ride : Ride) (w : World) : World :=
  if (k =? "__proto__")%string then w |> upd_rides_proto (const (Some ride))
  else w |> upd_rides (Obj.set k ride).

(** [updateMeterTotal(ride, isNewRide)].  Reading [meter_reading] off a
    value that is not a ride gives [undefined], and the difference with it
    is [NaN]. *)
Definition updateMeterTotal (ride : Ride) (isNewRide : bool) (w : World) : World :=
  if (ride_status ride =? "dropoff")%string then
    w |> upd_totalPassengers (fun t => sub t (passenger_count ride))
      |> upd_totalMeter (fun t => sub t (meter_reading ride))
  else if isNewRide then
    w |> upd_totalPassengers (fun t => add t (passenger_count ride))
      |> upd_totalMeter (fun t => add t (meter_reading ride))
  else
    match lookup w (ride_id ride) with
    | VRide existingRide =>
        w |> upd_totalMeter
               (fun t => add t (sub (meter_reading ride) (meter_reading existingRide)))
    | VOther true =>
        w |> upd_totalMeter (fun t => add t (sub (meter_reading ride) NaN))
    | _ => w
    end.

(** [updateStats(ride, isNewRide)], without the rate and the lag. *)
Definition updateStats (ride : Ride) (isNewRide : bool) (w : World) : World :=
  let w := w |> upd_totalUpdates (fun n => n + 1) in
  let w := updateMeterTotal ride isNewRide w in
  let w := w |> upd_avgDensity
                  (const (toFixed2 (div (totalPassengers w) (of_Z (activeRides w))))) in
  let mpp := "$" ++ toFixed2 (div (totalMeter w) (totalPassengers w)) in
  let labels :=
    {| lbl_activeRides := activeRides w;
       lbl_totalMeter := "$" ++ toFixed2 (totalMeter w);
       lbl_totalPassengers := totalPassengers w;
       lbl_avgDensity := avgDensity w;
       lbl_mpp := mpp |} in
  w |> upd_page (upd_statLabels (const (Some labels))).

(** [clearCards()] *)
Definition clearCards (w : World) : World :=
  w |> upd_page (fun p => p |> upd_containerDiv (const [])
                            |> upd_alert_opacity (const 0)).

(** [sequence(ride)]: the tagged ride is the object the registry holds. *)
Definition sequence (ride : Ride) (w : World) : Ride * World :=
  let ride := set_sequenceNumber (messageSeq w) ride in
  (ride, w |> upd_messageSeq (fun n => n + 1)
           |> assign (ride_id ride) ride).

(** [formatCoordinate(coord)]; [None] is [undefined]. *)
Definition formatCoordinate (coord : string) : option string :=
  if (coord =? "")%string then None
  else
    let idx := match index 0 "." coord with
               | Some i => Z.of_nat i
               | None => -1
               end in
    Some (substring 0 (Z.to_nat (idx + 5)) coord).

(** A value inside a template literal. *)
Definition interpolate (v : option string) : string :=
  match v with Some s => s | None => "undefined" end.

(** The message [flashMessage] composes for a ride. *)
Definition alert_of (ride : Ride) : Flash :=
  let lat := formatCoordinate (latitude ride) in
  let lon := formatCoordinate (longitude ride) in
  let latlng := interpolate lat ++ "," ++ interpolate lon in
  let icon := if (ride_status ride =? "pickup")%string then "directions_run" else "done" in
  {| flash_title := ride_status ride;
     flash_icon := icon;
     flash_ride := ride_id ride;
     flash_latlng := latlng |}.

(** [flashMessage(ride)], on a page that has the alert element. *)
Definition flashMessage (ride : Ride) (w : World) : World :=
  let msg := alert_of ride in
  w |> upd_page (fun p => p |> upd_alert_message (const (Some msg))
                            |> upd_alert_opacity (const 1)
                            |> upd_presented (fun l => (l ++ [Flashed msg])%list)).

(** [processRide(ride)] *)
Definition processRide (ride : Ride) (w : World) : World :=
  if negb (tracked w (ride_id ride)) then
    let w := w |> upd_activeRides (fun n => n + 1) in
    let (ride, w) := sequence ride w in
    updateStats ride true w
  else if (ride_status ride =? "dropoff")%string then
    let w := if tracked w (ride_id ride) then
               w |> flashMessage ride
                 |> upd_activeRides (fun n => n - 1)
                 |> upd_rides (Obj.delete (ride_id ride))
             else w in
    updateStats ride false w
  else
    let w := if (ride_status ride =? "pickup")%string then flashMessage ride w else w in
    let (ride, w) := sequence ride w in
    updateStats ride false w.

(** ** Card markup *)

(** The double quote of the markup. *)
Definition dq : string := String (ascii_of_nat 34) EmptyString.

(** [<i class="material-icons">person</i>] *)
Definition person_icon : string :=
  "<i class=" ++ dq ++ "material-icons" ++ dq ++ ">person</i>".

(** [<i class="material-icons">refresh</icon>] *)
Definition refresh_icon : string :=
  "<i class=" ++ dq ++ "material-icons" ++ dq ++ ">refresh</icon>".

(** [count > 0] *)
Definition positive (count : num) : bool :=
  match count with
  | Fin q => match sgn q with Gt => true | _ => false end
  | PInf => true
  | _ => false
  end.

(** [i < count], for the integer loop counter [i]. *)
Definition below (i : Z) (count : num) : bool :=
  match count with
  | Fin q => negb (Qle_bool q (inject_Z i))
  | PInf => true
  | _ => false
  end.

(** [i === count - 1] *)
Definition is_last (i : Z) (count : num) : bool :=
  match count with
  | Fin q => Qeq_bool (inject_Z i) (q - 1)
  | _ => false
  end.

(** The [for] loop of [makePassengers], from counter [i] with [span] built
    so far: [Some (Some s)] when it returns [s], [Some None] when the loop
    ends and the function falls off its end, [None] when [fuel] turns were
    not enough. *)
Fixpoint persons_loop (fuel : nat) (i : Z) (count : num) (span : string)
  : option (option string) :=
  match fuel with
  | O => None
  | S fuel' =>
      if below i count then
        let span := span ++ person_icon in
        if is_last i count then Some (Some span)
        else persons_loop fuel' (i + 1) count span
      else Some None
  end.

(** [makePassengers(count)]: [Some (Some s)] for the string [s],
    [Some None] for [undefined], [None] when the loop has no last turn (a
    count of [Infinity], on which the string grows until the engine throws
    [RangeError]).  A finite count needs at most one turn per unit, and one
    more to leave the loop.  The counter and the comparisons are exact, as
    those of the script are for counts up to 2^53; the length of [span] is
    not bounded, where an engine throws [RangeError] once the string passes
    the longest it can hold. *)
Definition makePassengers (count : num) : option (option string) :=
  let span := "<br>" in
  if positive count then
    match count with
    | Fin q => persons_loop (S (Z.to_nat (Qceiling q))) 0 count span
    | _ => None
    end
  else Some (Some (span ++ refresh_icon)).

(** [calculateMessageRate(updateCount, totalSeconds)] *)
Definition calculateMessageRate (updateCount totalSeconds : num) : string :=
  toFixed2 (div updateCount totalSeconds).

(** [headerIcon(rideStatus)] *)
Definition headerIcon (rideStatus : string) : string :=
  if (rideStatus =? "dropoff")%string then "done"
  else if (rideStatus =? "pickup")%string then "directions_run"
  else "traffic".

(** ** Ride cards *)

(** [makePassengers(ride.passenger_count)] comes back. *)
Definition renders_passengers (ride : Ride) : bool :=
  match makePassengers (passenger_count ride) with
  | Some _ => true
  | None => false
  end.

(** [new Date(ride.timestamp).toISOString()] comes back. *)
Definition renders_date (ride : Ride) : bool :=
  match isodate ride with
  | Some _ => true
  | None => false
  end.

(** [makeCard(ride, index)] builds the header, which calls
    [makePassengers], then the body, then the footer, which converts the
    timestamp. *)
Definition renders (ride : Ride) : bool :=
  renders_passengers ride && renders_date ride.

(** [makeCard(ride, index)], once header, body and footer are built. *)
Definition makeCard (ride : Ride) (index : nat) : Card :=
  {| card_index := index; card_ride := ride |}.

(** What a card shows once the in-place branch of [refreshCard] has written
    [ride_id] and [ride_status], the first two of [rideKeys]. *)
Definition show_status (ride shown : Ride) : Ride :=
  {| ride_id := ride_id ride;
     ride_status := ride_status ride;
     timestamp := timestamp shown;
     isodate := isodate shown;
     latitude := latitude shown;
     longitude := longitude shown;
     meter_reading := meter_reading shown;
     passenger_count := passenger_count shown;
     sequenceNumber := sequenceNumber shown |}.

(** What it shows once [timestamp] and [meter_reading] are written too;
    no element carries [latitude] or [longitude]. *)
Definition show_meter (ride shown : Ride) : Ride :=
  {| ride_id := ride_id ride;
     ride_status := ride_status ride;
     timestamp := timestamp ride;
     isodate := isodate ride;
     latitude := latitude shown;
     longitude := longitude shown;
     meter_reading := meter_reading ride;
     passenger_count := passenger_count shown;
     sequenceNumber := sequenceNumber shown |}.

(** The loop over [rideKeys] on the elements of one card.  The result says
    whether the loop threw; what it wrote before stays written. *)
Definition rewrite_elements (ride : Ride) (c : Card) : Card * bool :=
  if negb (renders_date ride) then
    ({| card_index := card_index c; card_ride := show_status ride (card_ride c) |}, true)
  else if negb (renders_passengers ride) then
    ({| card_index := card_index c; card_ride := show_meter ride (card_ride c) |}, true)
  else (makeCard ride (card_index c), false).

(** The in-place branch of [refreshCard]: [getElementById] finds the
    elements of the first card that carries the index, if there is one. *)
Fixpoint rewriteCard (ride : Ride) (cardIndex : nat) (children : list Card)
  : list Card * bool :=
  match children with
  | [] => ([], false)
  | c :: rest =>
      if Nat.eqb (card_index c) cardIndex then
        let (c', thrown) := rewrite_elements ride c in (c' :: rest, thrown)
      else
        let (rest', thrown) := rewriteCard ride cardIndex rest in
        (c :: rest', thrown)
  end.

(** [refreshCard(ride, cardIndex)] for a ride object: the page it leaves,
    and whether it threw. *)
Definition refreshCard_outcome (ride : Ride) (cardIndex : nat) (w : World)
  : World * bool :=
  let w := w |> upd_page (upd_presented (fun l => (l ++ [Refreshed cardIndex ride])%list)) in
  let children := containerDiv (page w) in
  if Z.of_nat (List.length children) <? maxNumRideCards then
    if renders ride then
      (w |> upd_page (upd_containerDiv (fun c => (c ++ [makeCard ride cardIndex])%list)),
       false)
    else (w, true)
  else
    let (children', thrown) := rewriteCard ride cardIndex children in
    (w |> upd_page (upd_containerDiv (const children')), thrown).

Definition refreshCard (ride : Ride) (cardIndex : nat) (w : World) : World :=
  fst (refreshCard_outcome ride cardIndex w).

Definition refreshCard_throws (ride : Ride) (cardIndex : nat) (w : World) : bool :=
  snd (refreshCard_outcome ride cardIndex w).

(** ** Connection and sampler *)

(** [clearStats()].  The elements of class [stat] that it sets to 0 are those
    of the ride cards, which [connect] removes right after, and markup of
    the page, which is not represented. *)
Definition clearStats (w : World) : World :=
  {| rides := Obj.empty;
     rides_proto := None;
     totalMeter := Fin 0;
     totalUpdates := 0;
     totalPassengers := Fin 0;
     avgDensity := "0";
     meterPerPassenger := Fin 0;
     messageSeq := 0;
     activeRides := 0;
     ws := ws w;
     page := page w |}.

(** [connect()] *)
Definition connect (w : World) : World :=
  match ws w with
  | Some OPEN =>
      w |> upd_ws (const None)
        |> upd_rides (const Obj.empty) |> upd_rides_proto (const None)
  | _ =>
      w |> upd_ws (const (Some CONNECTING)) |> clearStats |> clearCards
  end.

(** The keys [cycle] samples. *)
Definition rideSample (w : World) : list string :=
  slice (activeRides w - maxNumRideCards) (Obj.Object_keys (rides w)).

(** One turn of the loop of [cycle], on the page so far and whether an
    earlier turn threw, which ends the loop.  An index past the end of the
    sample reads [undefined], which names the property ["undefined"].  What
    the loop reads is a ride or [undefined]: a sampled key is an own key,
    and ["undefined"] is no name of [Object.prototype] or of a ride. *)
Definition cycle_body (sample : list string) (st : World * bool) (i : nat)
  : World * bool :=
  if snd st then st
  else
    match lookup (fst st) (nth i sample "undefined") with
    | VRide ride => refreshCard_outcome ride i (fst st)
    | _ => st
    end.

(** [cycle()] *)
Definition cycle (w : World) : World :=
  match ws w with
  | Some OPEN =>
      fst (fold_left (cycle_body (rideSample w))
             (seq 0 (Z.to_nat maxNumRideCards)) (w, false))
  | _ => w
  end.

(** ** The page as a transition system *)

(** What can happen to the page: a click on the connect control, the socket
    handlers, a message of the feed, a tick of the timer.  The handler of a
    message belongs to the socket that delivers it and does not look at
    [ws]: a socket that a later connect has replaced keeps its handler, so a
    message is processed in whatever state it arrives. *)
Inductive Event : Type :=
| Toggle
| SocketOpen
| SocketClose
| SocketError
| Message (ride : Ride)
| Tick.

Definition step (w : World) (e : Event) : World :=
  match e with
  | Toggle => connect w
  | SocketOpen =>
      match ws w with
      | Some CONNECTING => w |> upd_ws (const (Some OPEN))
      | _ => w
      end
  | SocketClose | SocketError =>
      match ws w with
      | Some _ => w |> upd_ws (const (Some CLOSED))
      | None => w
      end
  | Message ride => processRide ride w
  | Tick => cycle w
  end.

Definition run (es : list Event) (w : World) : World := fold_left step es w.

(** The state right after a connection opened: a clean reset. *)
Definition connected : World := run [Toggle; SocketOpen] initial.

(** The events of a feed, in order. *)
Definition feed (rs : list Ride) : list Event := map Message rs.

(** An event of the page whose ride, if it carries one, has an identifier
    that is no name of [Object.prototype]. *)
Definition plain_event (e : Event) : bool :=
  match e with
  | Message ride => negb (inherited (ride_id ride))
  | _ => true
  end.

Definition plain (es : list Event) : bool := forallb plain_event es.

(** ** Recomputation from the registry *)

Definition sum_of (f : Ride -> num) (o : Obj.t Ride) : num :=
  fold_left (fun acc kv => add acc (f (snd kv))) o (Fin 0).

Definition registry_fare (w : World) : num := sum_of meter_reading (rides w).
Definition registry_passengers (w : World) : num := sum_of passenger_count (rides w).
Definition registry_count (w : World) : Z :=
  Z.of_nat (List.length (Obj.Object_keys (rides w))).

(** ** Sample events *)

Definition ev (id status : string) (passengers fare : Q) : Ride :=
  {| ride_id := id; ride_status := status;
     timestamp := "2019-03-01T12:00:00.000Z";
     isodate := Some "2019-03-01T12:00:00.000Z";
     latitude := "40.75012"; longitude := "-73.99345";
     meter_reading := Fin fare; passenger_count := Fin passengers;
     sequenceNumber := None |}.

(** The same event with a timestamp that is not a date. *)
Definition undated (r : Ride) : Ride :=
  {| ride_id := ride_id r; ride_status := ride_status r;
     timestamp := "soon"; isodate := None;
     latitude := latitude r; longitude := longitude r;
     meter_reading := meter_reading r; passenger_count := passenger_count r;
     sequenceNumber := sequenceNumber r |}.

(** The slots and rides a list of presentation calls refreshed. *)
Definition refreshes (cs : list Call) : list (nat * string) :=
  flat_map (fun c => match c with
                     | Refreshed i ride => [(i, ride_id ride)]
                     | Flashed _ => []
                     end) cs.

(** What the aggregator and the registry hold, side by side. *)
Definition snapshot (w : World) : list string * Z * num * num :=
  (Obj.names (rides w), activeRides w, totalPassengers w, totalMeter w).

(** Five rides being tracked. *)
Definition five_rides : World :=
  run (feed [ev "a" "pickup" 1 0; ev "b" "pickup" 1 0; ev "c" "pickup" 1 0;
             ev "d" "pickup" 1 0; ev "e" "pickup" 1 0]) connected.

(** ** Notions the properties below are stated with *)

(** The last [k] elements of a list. *)
Definition lastn {A : Type} (k : nat) (l : list A) : list A :=
  skipn (List.length l - k) l.

(** Ascending order of indexed names. *)
Definition index_le (x y : N * string) : Prop := (fst x <= fst y)%N.

(** What a division by zero prints. *)
Definition by_zero (q : Q) : string :=
  match sgn q with
  | Eq => "NaN"
  | Gt => "Infinity"
  | Lt => "-Infinity"
  end.

(** While the script holds a socket the counter is the size of the
    registry. *)
Definition consistent (w : World) : Prop :=
  ws w <> None -> activeRides w = Z.of_nat (List.length (rides w)).

(** What holds in every state reached through plain events: the counter
    and the registry agree while the script holds a socket, the prototype of
    the registry is [Object.prototype], and the counter is never below the
    size of the registry. *)
Definition plain_state (w : World) : Prop :=
  consistent w
  /\ rides_proto w = None
  /\ Z.of_nat (List.length (rides w)) <= activeRides w.

(** [n] copies of a string. *)
Fixpoint copies (n : nat) (s : string) : string :=
  match n with
  | O => ""
  | S n' => s ++ copies n' s
  end.

(** The variables of the script, without the page. *)
Definition globals (w : World)
  : Obj.t Ride * option Ride * num * Z * num * string * num * Z * Z
    * option ReadyState :=
  (rides w, rides_proto w, totalMeter w, totalUpdates w, totalPassengers w,
   avgDensity w, meterPerPassenger w, messageSeq w, activeRides w, ws w).

(** A record tagged with a sequence number in [0, m). *)
Definition tagged_below (m : Z) (r : Ride) : Prop :=
  exists n, sequenceNumber r = Some n /\ 0 <= n < m.

(** What every reachable state satisfies: the registry has one entry per
    name, each stored under its own identifier and tagged with a sequence
    number of its own below [messageSeq]; [__proto__] is no own name; the
    next sequence number and the count of events are not negative; the
    container holds at most [maxNumRideCards] cards. *)
Definition well_formed (w : World) : Prop :=
  NoDup (Obj.names (rides w))
  /\ Forall (fun kv => ride_id (snd kv) = fst kv) (rides w)
  /\ Forall (fun kv => tagged_below (messageSeq w) (snd kv)) (rides w)
  /\ NoDup (map (fun kv => sequenceNumber (snd kv)) (rides w))
  /\ Obj.get "__proto__" (rides w) = None
  /\ 0 <= messageSeq w
  /\ 0 <= totalUpdates w
  /\ Z.of_nat (List.length (containerDiv (page w))) <= maxNumRideCards.

(** The refresh call of slot [i] on a tick, if the slot gets one. *)
Definition slot_call (w : World) (i : nat) : list Call :=
  match lookup w (nth i (rideSample w) "undefined") with
  | VRide ride => [Refreshed i ride]
  | _ => []
  end.

(** The slots of the loop of [cycle]. *)
Definition slots : list nat := seq 0 (Z.to_nat maxNumRideCards).

(** A passenger count on which [makePassengers] comes back in every
    engine: not [Infinity], and at most a million, which keeps the counter
    of its loop exact and its string short. *)
Definition modest (count : num) : bool :=
  match count with
  | Fin q => Qle_bool q 1000000
  | PInf => false
  | _ => true
  end.

(** A ride that every engine draws on a card: its timestamp is a date and
    its passenger count is modest. *)
Definition drawable (ride : Ride) : bool :=
  renders_date ride && modest (passenger_count ride).

(** Every ride of the registry can be drawn on a card. *)
Definition all_render (w : World) : bool :=
  forallb (fun kv => drawable (snd kv)) (rides w).

(** * The library functions on sample values *)

Example toFixed2_5_5 : toFixed2 (Fin (11 # 2)) = "5.50".
Proof. reflexivity. Qed.

Example toFixed2_neg : toFixed2 (Fin (- (1 # 1024))) = "-0.00".
Proof. reflexivity. Qed.

Example toFixed2_tie : toFixed2 (Fin (17 # 8)) = "2.13".
Proof. reflexivity. Qed.

Example div_zero_zero : toFixed2 (div (Fin 0) (of_Z 0)) = "NaN".
Proof. reflexivity. Qed.

Example keys_order :
  Obj.Object_keys [("b", 1); ("10", 2); ("a", 3); ("9", 4); ("01", 5)]
  = ["9"; "10"; "b"; "a"; "01"].
Proof. reflexivity. Qed.

Example slice_negative : slice (-4) [1; 2; 3; 4; 5] = [2; 3; 4; 5].
Proof. reflexivity. Qed.

Example slice_far_negative : slice (-6) [1; 2; 3] = [1; 2; 3].
Proof. reflexivity. Qed.

(** * Facts about objects *)

Module ObjFacts.
Import Obj.

Section Props.
Context {A : Type}.
Implicit Types (o : Obj.t A) (k : string) (v : A).

Lemma get_set_same k v o : get k (set k v o) = Some v.
Proof.
  induction o as [| [k' v'] o IH]; simpl.
  - now rewrite String.eqb_refl.
  - destruct (String.eqb k k') eqn:E; simpl; rewrite E; auto.
Qed.

Lemma names_set_present k v o :
  get k o <> None -> names (set k v o) = names o.
Proof.
  unfold names.
  induction o as [| [k' v'] o IH]; simpl; intros H.
  - contradiction.
  - destruct (String.eqb k k') eqn:E; simpl; [reflexivity |].
    f_equal. now apply IH.
Qed.

Lemma names_set_absent k v o :
  get k o = None -> names (set k v o) = (names o ++ [k])%list.
Proof.
  unfold names.
  induction o as [| [k' v'] o IH]; simpl; intros H.
  - reflexivity.
  - destruct (String.eqb k k') eqn:E; [discriminate |].
    simpl. f_equal. now apply IH.
Qed.

Lemma length_names o : List.length (names o) = List.length o.
Proof. apply length_map. Qed.

Lemma length_set_present k v o :
  get k o <> None -> List.length (set k v o) = List.length o.
Proof.
  intros H. rewrite <- !length_names. now rewrite names_set_present.
Qed.

Lemma length_set_absent k v o :
  get k o = None -> List.length (set k v o) = S (List.length o).
Proof.
  intros H. rewrite <- !length_names, names_set_absent by assumption.
  rewrite length_app. simpl. lia.
Qed.

Lemma length_delete_present k o :
  get k o <> None -> S (List.length (delete k o)) = List.length o.
Proof.
  induction o as [| [k' v'] o IH]; simpl; intros H.
  - contradiction.
  - destruct (String.eqb k k') eqn:E; simpl; [reflexivity |].
    f_equal. now apply IH.
Qed.

End Props.

(** The sort is an insertion sort: its result is a permutation of its
    argument, ascending in the index. *)


Lemma insert_index_perm x l : Permutation (x :: l) (insert_index x l).
Proof.
  induction l as [| y l IH]; simpl.
  - apply Permutation_refl.
  - destruct (fst x <=? fst y)%N.
    + apply Permutation_refl.
    + eapply perm_trans; [apply perm_swap |]. now apply perm_skip.
Qed.

Lemma sort_index_perm l : Permutation l (sort_index l).
Proof.
  induction l as [| x l IH]; simpl.
  - constructor.
  - eapply perm_trans; [apply perm_skip, IH |]. apply insert_index_perm.
Qed.

Lemma insert_index_sorted x l :
  Sorted index_le l -> Sorted index_le (insert_index x l).
Proof.
  induction 1 as [| y l Hs IH Hd]; simpl.
  - repeat constructor.
  - destruct (fst x <=? fst y)%N eqn:E.
    + apply N.leb_le in E. repeat constructor; assumption.
    + apply N.leb_gt in E. constructor; [assumption |].
      destruct Hd as [| z l Hyz]; simpl.
      * constructor. unfold index_le. lia.
      * destruct (fst x <=? fst z)%N; constructor; unfold index_le in *; lia.
Qed.

Lemma sort_index_sorted l : Sorted index_le (sort_index l).
Proof.
  induction l as [| x l IH]; simpl.
  - constructor.
  - now apply insert_index_sorted.
Qed.

Lemma indexed_spec l :
  map snd (indexed l) = filter is_index l
  /\ Forall (fun x => array_index (snd x) = Some (fst x)) (indexed l).
Proof.
  unfold is_index.
  induction l as [| k l [IH1 IH2]]; simpl.
  - split; constructor.
  - destruct (array_index k) eqn:E; simpl.
    + split; [now f_equal | now constructor].
    + now split.
Qed.

Lemma indexed_none l :
  Forall (fun k => is_index k = false) l -> indexed l = [].
Proof.
  unfold is_index.
  induction 1 as [| k l Hk _ IH]; simpl.
  - reflexivity.
  - destruct (array_index k); [discriminate | assumption].
Qed.

Lemma filter_all {B : Type} (f : B -> bool) (l : list B) :
  Forall (fun x => f x = true) l -> filter f l = l.
Proof.
  induction 1 as [| x l Hx _ IH]; simpl.
  - reflexivity.
  - rewrite Hx. now f_equal.
Qed.

(** Without array indices among the names, enumeration is creation order. *)
Lemma Object_keys_plain {A : Type} (o : Obj.t A) :
  Forall (fun k => is_index k = false) (names o) ->
  Object_keys o = names o.
Proof.
  intros H. unfold Object_keys.
  rewrite indexed_none by assumption. simpl.
  apply filter_all.
  eapply Forall_impl; [| exact H]. simpl. now intros k ->.
Qed.

(** Array indices come first, ascending; the other names follow in creation
    order. *)
Lemma Object_keys_split {A : Type} (o : Obj.t A) :
  exists idx : list (N * string),
    Object_keys o
    = (map snd idx ++ filter (fun k => negb (is_index k)) (names o))%list
    /\ Permutation (map snd idx) (filter is_index (names o))
    /\ Forall (fun x => array_index (snd x) = Some (fst x)) idx
    /\ Sorted index_le idx.
Proof.
  exists (sort_index (indexed (names o))).
  destruct (indexed_spec (names o)) as [Hm Hf].
  repeat split.
  - rewrite <- Hm. apply Permutation_map, Permutation_sym, sort_index_perm.
  - eapply Permutation_Forall; [apply sort_index_perm | exact Hf].
  - apply sort_index_sorted.
Qed.

Lemma length_Object_keys {A : Type} (o : Obj.t A) :
  List.length (Object_keys o) = List.length o.
Proof.
  unfold Object_keys.
  rewrite length_app, length_map.
  rewrite <- (Permutation_length (sort_index_perm _)).
  rewrite <- (length_map snd), (proj1 (indexed_spec _)).
  rewrite <- (length_names o).
  induction (names o) as [| k l IH]; simpl.
  - reflexivity.
  - destruct (is_index k); simpl; lia.
Qed.

End ObjFacts.

(** * Facts about reading the registry *)

Section Lookup.
Implicit Types (w : World) (k : string) (r : Ride).

Lemma lookup_own w k r : Obj.get k (rides w) = Some r -> lookup w k = VRide r.
Proof. unfold lookup, read. now intros ->. Qed.

Lemma tracked_own w k : Obj.get k (rides w) <> None -> tracked w k = true.
Proof.
  unfold tracked, lookup, read.
  destruct (Obj.get k (rides w)); [reflexivity | intros H; now elim H].
Qed.

(** A name that is not inherited, read off an object whose prototype is
    [Object.prototype]: the own property, or [undefined]. *)
Lemma lookup_plain w k :
  rides_proto w = None -> inherited k = false ->
  lookup w k = match Obj.get k (rides w) with
               | Some r => VRide r
               | None => VUndefined
               end.
Proof.
  unfold lookup, read. intros -> ->.
  now destruct (Obj.get k (rides w)).
Qed.

Lemma tracked_plain w k :
  rides_proto w = None -> inherited k = false ->
  tracked w k = match Obj.get k (rides w) with
                | Some _ => true
                | None => false
                end.
Proof.
  intros Hp Hk. unfold tracked. rewrite lookup_plain by assumption.
  now destruct (Obj.get k (rides w)).
Qed.

(** What is not tracked is not an own property. *)
Lemma untracked_absent w k : tracked w k = false -> Obj.get k (rides w) = None.
Proof.
  intros H. destruct (Obj.get k (rides w)) eqn:G; [| reflexivity].
  rewrite tracked_own in H by congruence. discriminate.
Qed.

(** The accessor [__proto__] always reads as an object. *)
Lemma tracked_proto w : tracked w "__proto__" = true.
Proof.
  unfold tracked, lookup, read.
  destruct (Obj.get "__proto__" (rides w)); [reflexivity |].
  now destruct (rides_proto w).
Qed.

Lemma untracked_not_proto w k : tracked w k = false -> (k =? "__proto__")%string = false.
Proof.
  intros H. destruct (String.eqb_spec k "__proto__") as [E | E]; [| reflexivity].
  subst k. now rewrite tracked_proto in H.
Qed.

(** The name ["undefined"] is found among the own properties or not at
    all. *)
Lemma lookup_undefined w :
  lookup w "undefined"
  = match Obj.get "undefined" (rides w) with
    | Some r => VRide r
    | None => VUndefined
    end.
Proof.
  unfold lookup, read.
  destruct (Obj.get "undefined" (rides w)); [reflexivity |].
  now destruct (rides_proto w).
Qed.

Lemma rides_assign k r w :
  rides (assign k r w)
  = if (k =? "__proto__")%string then rides w else Obj.set k r (rides w).
Proof. unfold assign. now destruct (k =? "__proto__")%string. Qed.

Lemma rides_proto_assign k r w :
  rides_proto (assign k r w)
  = if (k =? "__proto__")%string then Some r else rides_proto w.
Proof. unfold assign. now destruct (k =? "__proto__")%string. Qed.

End Lookup.

(** * Facts about the script *)

Section Frames.
Implicit Types (w : World) (ride e : Ride).

Lemma updateStats_frame ride b w :
  rides (updateStats ride b w) = rides w
  /\ activeRides (updateStats ride b w) = activeRides w
  /\ ws (updateStats ride b w) = ws w
  /\ presented (page (updateStats ride b w)) = presented (page w)
  /\ containerDiv (page (updateStats ride b w)) = containerDiv (page w)
  /\ rides_proto (updateStats ride b w) = rides_proto w.
Proof.
  unfold updateStats, updateMeterTotal, lookup. simpl.
  destruct (ride_status ride =? "dropoff")%string; [repeat split; reflexivity |].
  destruct b; [repeat split; reflexivity |].
  destruct (read (rides w) (rides_proto w) (ride_id ride)) as [r | [|] |];
    repeat split; reflexivity.
Qed.

Lemma updateStats_counters ride b w :
  messageSeq (updateStats ride b w) = messageSeq w
  /\ totalUpdates (updateStats ride b w) = totalUpdates w + 1
  /\ meterPerPassenger (updateStats ride b w) = meterPerPassenger w
  /\ alert_message (page (updateStats ride b w)) = alert_message (page w)
  /\ alert_opacity (page (updateStats ride b w)) = alert_opacity (page w).
Proof.
  unfold updateStats, updateMeterTotal, lookup. simpl.
  destruct (ride_status ride =? "dropoff")%string; [repeat split; reflexivity |].
  destruct b; [repeat split; reflexivity |].
  destruct (read (rides w) (rides_proto w) (ride_id ride)) as [r | [|] |];
    repeat split; reflexivity.
Qed.

(** What [updateStats] leaves in the derived aggregates. *)
Lemma updateStats_derived ride b w :
  let w' := updateStats ride b w in
  avgDensity w' = toFixed2 (div (totalPassengers w') (of_Z (activeRides w')))
  /\ option_map lbl_mpp (statLabels (page w'))
     = Some ("$" ++ toFixed2 (div (totalMeter w') (totalPassengers w'))).
Proof.
  unfold updateStats, updateMeterTotal, lookup. simpl.
  destruct (ride_status ride =? "dropoff")%string; [split; reflexivity |].
  destruct b; [split; reflexivity |].
  destruct (read (rides w) (rides_proto w) (ride_id ride)) as [r | [|] |];
    split; reflexivity.
Qed.

(** The three paths of [processRide]: a ride that does not read as tracked,
    the dropoff of one that does, any other event of one that does. *)
Lemma processRide_paths e w :
  let tagged := set_sequenceNumber (messageSeq w) e in
  processRide e w
  = if negb (tracked w (ride_id e)) then
      updateStats tagged true
        (w |> upd_activeRides (fun n => n + 1)
           |> upd_messageSeq (fun n => n + 1)
           |> assign (ride_id e) tagged)
    else if (ride_status e =? "dropoff")%string then
      updateStats e false
        (w |> flashMessage e
           |> upd_activeRides (fun n => n - 1)
           |> upd_rides (Obj.delete (ride_id e)))
    else
      updateStats tagged false
        ((if (ride_status e =? "pickup")%string then flashMessage e w else w)
           |> upd_messageSeq (fun n => n + 1)
           |> assign (ride_id e) tagged).
Proof.
  unfold processRide, sequence.
  destruct (tracked w (ride_id e)); simpl; [| reflexivity].
  destruct (ride_status e =? "dropoff")%string; [reflexivity |].
  now destruct (ride_status e =? "pickup")%string.
Qed.

(** Every path of [processRide] ends in [updateStats]. *)
Lemma processRide_ends_in_updateStats ride w :
  exists ride' b w0, processRide ride w = updateStats ride' b w0.
Proof.
  rewrite processRide_paths.
  destruct (tracked w (ride_id ride)); simpl;
    [destruct (ride_status ride =? "dropoff")%string |];
    eexists _, _, _; reflexivity.
Qed.

End Frames.

(** The three paths, one goal each. *)
Ltac paths e w :=
  rewrite (processRide_paths e w); cbv zeta;
  destruct (tracked w (ride_id e)); cbn [negb];
  [destruct (ride_status e =? "dropoff")%string;
   [| destruct (ride_status e =? "pickup")%string] |].

Section Paths.
Implicit Types (w : World) (ride e : Ride).

Lemma processRide_ws ride w : ws (processRide ride w) = ws w.
Proof.
  paths ride w;
    rewrite (proj1 (proj2 (proj2 (updateStats_frame _ _ _))));
    unfold assign; try destruct (ride_id ride =? "__proto__")%string;
    reflexivity.
Qed.

(** The registry after [processRide]. *)
Lemma processRide_rides ride w :
  rides (processRide ride w)
  = if tracked w (ride_id ride) && (ride_status ride =? "dropoff")%string
    then Obj.delete (ride_id ride) (rides w)
    else rides (assign (ride_id ride) (set_sequenceNumber (messageSeq w) ride) w).
Proof.
  paths ride w;
    rewrite (proj1 (updateStats_frame _ _ _)); cbn [andb];
    rewrite ?rides_assign; reflexivity.
Qed.

(** The prototype of the registry after [processRide]. *)
Lemma processRide_rides_proto ride w :
  rides_proto (processRide ride w)
  = if tracked w (ride_id ride) && (ride_status ride =? "dropoff")%string
    then rides_proto w
    else rides_proto
           (assign (ride_id ride) (set_sequenceNumber (messageSeq w) ride) w).
Proof.
  paths ride w;
    rewrite (proj2 (proj2 (proj2 (proj2 (proj2 (updateStats_frame _ _ _))))));
    cbn [andb]; rewrite ?rides_proto_assign; reflexivity.
Qed.

(** The active count after [processRide]. *)
Lemma processRide_activeRides ride w :
  activeRides (processRide ride w)
  = if tracked w (ride_id ride) then
      if (ride_status ride =? "dropoff")%string
      then activeRides w - 1
      else activeRides w
    else activeRides w + 1.
Proof.
  paths ride w;
    rewrite (proj1 (proj2 (updateStats_frame _ _ _)));
    unfold assign; try destruct (ride_id ride =? "__proto__")%string;
    reflexivity.
Qed.

(** The presentation calls after [processRide]. *)
Lemma processRide_presented ride w :
  presented (page (processRide ride w))
  = if tracked w (ride_id ride)
       && ((ride_status ride =? "dropoff") || (ride_status ride =? "pickup"))%string
    then (presented (page w) ++ [Flashed (alert_of ride)])%list
    else presented (page w).
Proof.
  paths ride w;
    rewrite (proj1 (proj2 (proj2 (proj2 (updateStats_frame _ _ _)))));
    unfold assign; try destruct (ride_id ride =? "__proto__")%string;
    reflexivity.
Qed.

(** The alert after [processRide]. *)
Lemma processRide_alert ride w :
  (alert_message (page (processRide ride w)),
   alert_opacity (page (processRide ride w)))
  = if tracked w (ride_id ride)
       && ((ride_status ride =? "dropoff") || (ride_status ride =? "pickup"))%string
    then (Some (alert_of ride), 1)
    else (alert_message (page w), alert_opacity (page w)).
Proof.
  paths ride w;
    rewrite (proj1 (proj2 (proj2 (proj2 (updateStats_counters _ _ _))))),
            (proj2 (proj2 (proj2 (proj2 (updateStats_counters _ _ _)))));
    unfold assign; try destruct (ride_id ride =? "__proto__")%string;
    reflexivity.
Qed.

Lemma processRide_totalUpdates e w :
  totalUpdates (processRide e w) = totalUpdates w + 1.
Proof.
  paths e w;
    rewrite (proj1 (proj2 (updateStats_counters _ _ _)));
    unfold assign; try destruct (ride_id e =? "__proto__")%string;
    reflexivity.
Qed.

Lemma processRide_messageSeq e w :
  messageSeq (processRide e w)
  = if tracked w (ride_id e) && (ride_status e =? "dropoff")%string
    then messageSeq w
    else messageSeq w + 1.
Proof.
  paths e w;
    rewrite (proj1 (updateStats_counters _ _ _));
    unfold assign; try destruct (ride_id e =? "__proto__")%string;
    reflexivity.
Qed.

Lemma processRide_containerDiv e w :
  containerDiv (page (processRide e w)) = containerDiv (page w).
Proof.
  paths e w;
    rewrite (proj1 (proj2 (proj2 (proj2 (proj2 (updateStats_frame _ _ _))))));
    unfold assign; try destruct (ride_id e =? "__proto__")%string;
    reflexivity.
Qed.

(** With only plain identifiers met so far, the counter and the size of
    the registry move together under [processRide]. *)
Lemma processRide_count ride w :
  rides_proto w = None -> inherited (ride_id ride) = false ->
  activeRides (processRide ride w)
  - Z.of_nat (List.length (rides (processRide ride w)))
  = activeRides w - Z.of_nat (List.length (rides w)).
Proof.
  intros Hp Hk.
  assert (N : (ride_id ride =? "__proto__")%string = false).
  { destruct (String.eqb_spec (ride_id ride) "__proto__") as [E | E];
      [| reflexivity].
    rewrite E in Hk. discriminate. }
  rewrite processRide_activeRides, processRide_rides, rides_assign, N.
  rewrite (tracked_plain w (ride_id ride) Hp Hk).
  destruct (Obj.get (ride_id ride) (rides w)) eqn:G; cbn [andb].
  - assert (P : Obj.get (ride_id ride) (rides w) <> None) by congruence.
    destruct (ride_status ride =? "dropoff")%string.
    + pose proof (ObjFacts.length_delete_present _ _ P). lia.
    + rewrite ObjFacts.length_set_present by assumption. reflexivity.
  - rewrite ObjFacts.length_set_absent by assumption. lia.
Qed.

(** What [rides[ride_id]] reads right after [sequence] has stored the
    event: the event itself, on an object that has no own property named
    [__proto__]. *)
Lemma lookup_assigned e r w :
  Obj.get "__proto__" (rides w) = None ->
  lookup (assign (ride_id e) r w) (ride_id e) = VRide r.
Proof.
  intros Hn. unfold lookup. rewrite rides_assign, rides_proto_assign.
  destruct (String.eqb_spec (ride_id e) "__proto__") as [E | E].
  - rewrite E. unfold read. now rewrite Hn.
  - unfold read. now rewrite ObjFacts.get_set_same.
Qed.

(** A ride that reads as tracked and receives a further non-terminal event:
    the difference is taken with the record [sequence] has just stored, that
    is with the event itself. *)
Lemma update_takes_delta_with_itself e w :
  Obj.get "__proto__" (rides w) = None ->
  tracked w (ride_id e) = true ->
  (ride_status e =? "dropoff")%string = false ->
  totalMeter (processRide e w)
  = add (totalMeter w) (sub (meter_reading e) (meter_reading e))
  /\ totalPassengers (processRide e w) = totalPassengers w.
Proof.
  intros Hn Hin Hst. rewrite processRide_paths. cbv zeta.
  rewrite Hin, Hst. cbn [negb].
  unfold updateStats, updateMeterTotal.
  cbn [ride_status set_sequenceNumber]. rewrite Hst.
  set (tagged := set_sequenceNumber (messageSeq w) e).
  assert (L : forall w0, rides w0 = rides w ->
                lookup (upd_totalUpdates (fun n => n + 1)
                          (assign (ride_id e) tagged w0))
                       (ride_id tagged) = VRide tagged).
  { intros w0 E.
    change (ride_id tagged) with (ride_id e).
    rewrite <- (lookup_assigned e tagged w0) by (now rewrite E).
    reflexivity. }
  destruct (ride_status e =? "pickup")%string;
    rewrite L by reflexivity; unfold assign;
    destruct (ride_id e =? "__proto__")%string; now split.
Qed.

(** A first sighting that is not a dropoff adds the event's values. *)
Lemma first_sighting_totals e w :
  tracked w (ride_id e) = false ->
  (ride_status e =? "dropoff")%string = false ->
  totalMeter (processRide e w) = add (totalMeter w) (meter_reading e)
  /\ totalPassengers (processRide e w) = add (totalPassengers w) (passenger_count e).
Proof.
  intros Hin Hst. rewrite processRide_paths. cbv zeta. rewrite Hin. cbn [negb].
  unfold updateStats, updateMeterTotal.
  cbn [ride_status set_sequenceNumber]. rewrite Hst.
  unfold assign. cbn [ride_id set_sequenceNumber].
  destruct (ride_id e =? "__proto__")%string; now split.
Qed.

(** A dropoff subtracts the values it carries. *)
Lemma dropoff_totals e w :
  (ride_status e =? "dropoff")%string = true ->
  totalPassengers (processRide e w) = sub (totalPassengers w) (passenger_count e)
  /\ totalMeter (processRide e w) = sub (totalMeter w) (meter_reading e).
Proof.
  intros Hst. rewrite processRide_paths. cbv zeta. rewrite Hst.
  destruct (tracked w (ride_id e)); cbn [negb];
    unfold updateStats, updateMeterTotal;
    cbn [ride_status set_sequenceNumber]; rewrite Hst.
  - now split.
  - unfold assign. cbn [ride_id set_sequenceNumber].
    destruct (ride_id e =? "__proto__")%string; now split.
Qed.

(** A feed is processed event by event. *)
Lemma run_feed rs w :
  run (feed rs) w = fold_left (fun w e => processRide e w) rs w.
Proof.
  unfold run, feed. revert w.
  induction rs as [| e rs IH]; intros w; simpl.
  - reflexivity.
  - apply IH.
Qed.

(** A dropoff for an identifier that does not read as tracked takes the
    path of a new ride in [processRide] and the path of a dropoff in
    [updateMeterTotal]. *)
Lemma untracked_dropoff_is_new_ride (e : Ride) (w : World) :
  tracked w (ride_id e) = false ->
  (ride_status e =? "dropoff")%string = true ->
  activeRides (processRide e w) = activeRides w + 1
  /\ Obj.names (rides (processRide e w)) = (Obj.names (rides w) ++ [ride_id e])%list
  /\ totalPassengers (processRide e w) = sub (totalPassengers w) (passenger_count e)
  /\ totalMeter (processRide e w) = sub (totalMeter w) (meter_reading e)
  /\ presented (page (processRide e w)) = presented (page w).
Proof.
  intros G Hst.
  rewrite processRide_activeRides, processRide_rides, processRide_presented, G.
  rewrite rides_assign, (untracked_not_proto _ _ G).
  destruct (dropoff_totals e w Hst) as [Tp Tm].
  repeat split; try assumption.
  apply ObjFacts.names_set_absent. now apply untracked_absent.
Qed.

End Paths.

(** * The aggregator *)

(** C1. Claim: after every sequence of events applied from a clean reset the
    running totals equal the sums of meter reading and passenger count over
    the entries of the registry.  The code, on [pickup a, 2 passengers, fare
    0.00; enroute a, 2 passengers, fare 5.50]: the registry holds ride a with
    a meter reading of 5.50, so the sum over the registry is 5.50, and the
    running total fare is 0.00; the passenger totals agree. *)
Theorem totals_drift_from_registry :
  let w := run (feed [ev "a" "pickup" 2 0; ev "a" "enroute" 2 (11 # 2)]) connected in
  Obj.names (rides w) = ["a"]
  /\ option_map meter_reading (Obj.get "a" (rides w)) = Some (Fin (11 # 2))
  /\ registry_fare w = Fin (11 # 2)
  /\ totalMeter w = Fin 0
  /\ Num.eqb (totalMeter w) (registry_fare w) = false
  /\ totalPassengers w = registry_passengers w.
Proof. vm_compute. repeat split. Qed.

(** C2. Claim: a non-terminal event for a tracked ride adds to total fare the
    difference between its meter reading and the stored one, so that after
    [pickup fare 0.00; meter update fare 5.50] total fare is 5.50.  The code:
    the stored reading is 0.00, the event reads 5.50, the difference is 5.50,
    and total fare after the event is 0.00. *)
Theorem meter_update_adds_nothing :
  let w := run (feed [ev "a" "pickup" 2 0]) connected in
  let e := ev "a" "enroute" 2 (11 # 2) in
  option_map meter_reading (Obj.get "a" (rides w)) = Some (Fin 0)
  /\ sub (meter_reading e) (Fin 0) = Fin (11 # 2)
  /\ totalMeter w = Fin 0
  /\ totalMeter (processRide e w) = Fin 0
  /\ Num.eqb (totalMeter (processRide e w)) (Fin (11 # 2)) = false.
Proof. vm_compute. repeat split. Qed.

(** C5 (amended). For a dropoff whose identifier is in the registry, what is
    subtracted from total passengers and from total fare is the passenger
    count and the meter reading that the dropoff event itself carries,
    whatever the stored record holds. *)
Theorem dropoff_subtracts_event_values (e : Ride) (w : World) :
  ride_status e = "dropoff" ->
  Obj.get (ride_id e) (rides w) <> None ->
  totalPassengers (processRide e w) = sub (totalPassengers w) (passenger_count e)
  /\ totalMeter (processRide e w) = sub (totalMeter w) (meter_reading e).
Proof.
  intros Hst _. apply dropoff_totals. now rewrite Hst.
Qed.

Lemma dropoff_subtracts_event_values_witness :
  let w := run (feed [ev "a" "pickup" 2 (11 # 2)]) connected in
  let e := ev "a" "dropoff" 3 12 in
  totalPassengers (processRide e w) = sub (totalPassengers w) (passenger_count e)
  /\ totalMeter (processRide e w) = sub (totalMeter w) (meter_reading e).
Proof.
  apply (dropoff_subtracts_event_values
           (ev "a" "dropoff" 3 12)
           (run (feed [ev "a" "pickup" 2 (11 # 2)]) connected)).
  - reflexivity.
  - vm_compute. discriminate.
Defined.

(** C5 (as stated, refuted). The registry holds ride a with 2 passengers and
    a meter reading of 5.50; a dropoff arrives that carries 3 passengers and
    12.00.  The totals go from (2, 5.50) to (-1, -6.50): the event's values
    were subtracted, where the stored ones would have left (0, 0.00). *)
Lemma dropoff_ignores_stored_record :
  let w := run (feed [ev "a" "pickup" 2 (11 # 2)]) connected in
  let e := ev "a" "dropoff" 3 12 in
  option_map passenger_count (Obj.get (ride_id e) (rides w)) = Some (Fin 2)
  /\ option_map meter_reading (Obj.get (ride_id e) (rides w)) = Some (Fin (11 # 2))
  /\ (totalPassengers w, totalMeter w) = (Fin 2, Fin (11 # 2))
  /\ (totalPassengers (processRide e w), totalMeter (processRide e w))
     = (Fin (-1), Fin (- (13 # 2)))
  /\ (sub (totalPassengers w) (Fin 2), sub (totalMeter w) (Fin (11 # 2)))
     = (Fin 0, Fin 0)
  /\ Num.eqb (totalPassengers (processRide e w))
             (sub (totalPassengers w) (Fin 2)) = false
  /\ Num.eqb (totalMeter (processRide e w))
             (sub (totalMeter w) (Fin (11 # 2))) = false.
Proof. vm_compute. repeat split. Qed.

Lemma sgn_zero (q : Q) : (q == 0)%Q -> sgn q = Eq.
Proof.
  unfold Qeq, sgn. simpl. intros H. apply Z.compare_eq_iff. lia.
Qed.

Lemma sgn_pos (q : Q) : (0 < q)%Q -> sgn q = Gt.
Proof.
  unfold Qlt, sgn. simpl. intros H. apply Z.compare_gt_iff. lia.
Qed.

Lemma sgn_neg (q : Q) : (q < 0)%Q -> sgn q = Lt.
Proof.
  unfold Qlt, sgn. simpl. intros H. apply Z.compare_lt_iff. lia.
Qed.

Lemma toFixed2_div_zero (q d : Q) :
  (d == 0)%Q -> toFixed2 (div (Fin q) (Fin d)) = by_zero q.
Proof.
  intros Hd. unfold div, by_zero. rewrite (sgn_zero d Hd).
  now destruct (sgn q).
Qed.

(** C6 (amended). After every processed event the density is the quotient
    of total passengers by the active count and the fare per passenger is
    the quotient of total fare by total passengers, printed by [toFixed(2)]
    with no guard on the divisor: with an active count of zero the density
    reads NaN when total passengers is zero, Infinity when it is positive and
    -Infinity when it is negative, and likewise the fare per passenger when
    total passengers is zero.  Nothing is thrown. *)
Theorem derived_aggregates_are_unguarded (e : Ride) (w : World) :
  let w' := processRide e w in
  avgDensity w' = toFixed2 (div (totalPassengers w') (of_Z (activeRides w')))
  /\ option_map lbl_mpp (statLabels (page w'))
     = Some ("$" ++ toFixed2 (div (totalMeter w') (totalPassengers w')))
  /\ (forall p : Q,
        activeRides w' = 0 -> totalPassengers w' = Fin p ->
        avgDensity w' = by_zero p
        /\ ((p == 0)%Q -> avgDensity w' = "NaN")
        /\ ((0 < p)%Q -> avgDensity w' = "Infinity")
        /\ ((p < 0)%Q -> avgDensity w' = "-Infinity"))
  /\ (forall p m : Q,
        totalPassengers w' = Fin p -> (p == 0)%Q -> totalMeter w' = Fin m ->
        option_map lbl_mpp (statLabels (page w')) = Some ("$" ++ by_zero m)
        /\ ((m == 0)%Q ->
            option_map lbl_mpp (statLabels (page w')) = Some "$NaN")).
Proof.
  intros w'.
  destruct (processRide_ends_in_updateStats e w) as (r & b & w0 & E).
  destruct (updateStats_derived r b w0) as [Hd Hm].
  rewrite <- E in Hd, Hm. fold w' in Hd, Hm.
  split; [exact Hd |]. split; [exact Hm |]. split.
  - intros p Ha Hp.
    assert (D : avgDensity w' = by_zero p).
    { rewrite Hd, Ha, Hp. now apply toFixed2_div_zero. }
    split; [exact D |]. rewrite D. unfold by_zero.
    split; [| split]; intros H.
    + now rewrite (sgn_zero p H).
    + now rewrite (sgn_pos p H).
    + now rewrite (sgn_neg p H).
  - intros p m Hp Hz Ht.
    assert (D : option_map lbl_mpp (statLabels (page w')) = Some ("$" ++ by_zero m)).
    { rewrite Hm, Ht, Hp. now rewrite toFixed2_div_zero. }
    split; [exact D |]. intros H. rewrite D. unfold by_zero.
    now rewrite (sgn_zero m H).
Qed.

Lemma derived_aggregates_are_unguarded_witness :
  let w' := processRide (ev "a" "dropoff" 2 0)
              (run (feed [ev "a" "pickup" 2 0]) connected) in
  avgDensity w' = "NaN"
  /\ option_map lbl_mpp (statLabels (page w')) = Some "$NaN".
Proof.
  pose proof (derived_aggregates_are_unguarded
                (ev "a" "dropoff" 2 0)
                (run (feed [ev "a" "pickup" 2 0]) connected)) as H.
  cbv zeta in H. destruct H as (_ & _ & Hd & Hm).
  split.
  - apply (Hd 0%Q); [reflexivity | reflexivity | reflexivity].
  - apply (Hm 0%Q 0%Q); reflexivity.
Defined.

(** C6 (as stated, refuted). A clean reset, then [pickup a] and [dropoff a]
    with the same 2 passengers and fare 0.00: the active count and both
    totals are back to zero, and the labels read NaN for the density and
    $NaN for the fare per passenger. *)
Lemma no_rides_prints_NaN :
  let w := run (feed [ev "a" "pickup" 2 0; ev "a" "dropoff" 2 0]) connected in
  snapshot w = ([], 0, Fin 0, Fin 0)
  /\ avgDensity w = "NaN"
  /\ option_map lbl_avgDensity (statLabels (page w)) = Some "NaN"
  /\ option_map lbl_mpp (statLabels (page w)) = Some "$NaN".
Proof. vm_compute. repeat split. Qed.

(** * The classifier *)

(** C8. Claim: a notification is emitted for an event exactly when its
    identifier is already in the registry and its status is pickup or
    dropoff; the first event ever seen for an identifier emits none, even
    when its status is pickup.  The code, on a clean reset and a first event
    [pickup toString]: the registry is empty, and the event shows the pickup
    notification, because [rides["toString"]] reads the function every
    object inherits; the ride is then stored, and the active count stays
    0. *)
Theorem first_pickup_of_inherited_name_is_notified :
  let e := ev "toString" "pickup" 2 0 in
  let w := processRide e connected in
  rides connected = Obj.empty
  /\ Obj.get (ride_id e) (rides connected) = None
  /\ presented (page connected) = []
  /\ alert_opacity (page connected) = 0
  /\ presented (page w) = [Flashed (alert_of e)]
  /\ flash_title (alert_of e) = "pickup"
  /\ flash_ride (alert_of e) = "toString"
  /\ alert_message (page w) = Some (alert_of e)
  /\ alert_opacity (page w) = 1
  /\ snapshot w = (["toString"], 0, Fin 0, Fin 0).
Proof. vm_compute. repeat split. Qed.

(** C3. Claim: a dropoff for an identifier that is not in the registry
    changes nothing: not the active count, not the registry, not the totals,
    and no notification.  The code, on a clean reset and the event
    [dropoff a, 2 passengers, fare 12.00]: no notification indeed, but the
    ride is registered, the active count becomes 1, and the totals go to -2
    passengers and -12.00. *)
Theorem unknown_dropoff_is_registered :
  let e := ev "a" "dropoff" 2 12 in
  Obj.get (ride_id e) (rides connected) = None
  /\ snapshot connected = ([], 0, Fin 0, Fin 0)
  /\ snapshot (processRide e connected) = (["a"], 1, Fin (-2), Fin (-12))
  /\ presented (page (processRide e connected)) = presented (page connected).
Proof. vm_compute. repeat split. Qed.

(** C4. Claim: the same dropoff applied twice in a row leaves, the second
    time, the state as the first left it.  The code, after [pickup a, 2
    passengers, fare 0.00]: the first dropoff empties the registry and brings
    every total to zero; the second one registers the ride again, raises the
    active count to 1 and subtracts its 2 passengers once more. *)
Theorem second_dropoff_subtracts_again :
  let w0 := run (feed [ev "a" "pickup" 2 0]) connected in
  let e := ev "a" "dropoff" 2 0 in
  let w1 := processRide e w0 in
  let w2 := processRide e w1 in
  snapshot w0 = (["a"], 1, Fin 2, Fin 0)
  /\ snapshot w1 = ([], 0, Fin 0, Fin 0)
  /\ snapshot w2 = (["a"], 1, Fin (-2), Fin 0).
Proof. vm_compute. repeat split. Qed.

(** * Refreshing cards *)

Section Cards.
Implicit Types (w : World) (ride : Ride) (cards : list Card).

Lemma length_rewriteCard ride i cards :
  List.length (fst (rewriteCard ride i cards)) = List.length cards.
Proof.
  induction cards as [| c cards IH]; simpl.
  - reflexivity.
  - destruct (Nat.eqb (card_index c) i).
    + now destruct (rewrite_elements ride c).
    + destruct (rewriteCard ride i cards). simpl in *. now rewrite IH.
Qed.

Lemma rewrite_elements_index ride (c : Card) :
  card_index (fst (rewrite_elements ride c)) = card_index c.
Proof.
  unfold rewrite_elements.
  destruct (renders_date ride); [destruct (renders_passengers ride) |];
    reflexivity.
Qed.

Lemma rewriteCard_indices ride i cards :
  map card_index (fst (rewriteCard ride i cards)) = map card_index cards.
Proof.
  induction cards as [| c cards IH]; simpl.
  - reflexivity.
  - destruct (Nat.eqb (card_index c) i).
    + pose proof (rewrite_elements_index ride c) as E.
      destruct (rewrite_elements ride c). simpl in *. now rewrite E.
    + destruct (rewriteCard ride i cards). simpl in *. now rewrite IH.
Qed.

Lemma rewriteCard_missing ride i cards :
  ~ In i (map card_index cards) -> rewriteCard ride i cards = (cards, false).
Proof.
  induction cards as [| c cards IH]; simpl; intros H.
  - reflexivity.
  - destruct (Nat.eqb_spec (card_index c) i) as [E | E].
    + elim H. now left.
    + rewrite IH; [reflexivity |]. intros F. apply H. now right.
Qed.

(** A ride that can be drawn is rewritten in full. *)
Lemma rewriteCard_renders ride i cards :
  renders ride = true -> snd (rewriteCard ride i cards) = false.
Proof.
  unfold renders. intros H. apply andb_prop in H. destruct H as [Hp Hd].
  induction cards as [| c cards IH]; simpl.
  - reflexivity.
  - destruct (Nat.eqb (card_index c) i).
    + unfold rewrite_elements. now rewrite Hd, Hp.
    + now destruct (rewriteCard ride i cards).
Qed.

(** A refresh writes to the card container and the call log only. *)
Lemma refreshCard_outcome_frame ride i w :
  let w' := fst (refreshCard_outcome ride i w) in
  globals w' = globals w
  /\ alert_message (page w') = alert_message (page w)
  /\ alert_opacity (page w') = alert_opacity (page w)
  /\ statLabels (page w') = statLabels (page w)
  /\ presented (page w') = (presented (page w) ++ [Refreshed i ride])%list.
Proof.
  unfold refreshCard_outcome. simpl.
  destruct (Z.of_nat (List.length (containerDiv (page w))) <? maxNumRideCards).
  - destruct (renders ride); repeat split; reflexivity.
  - destruct (rewriteCard ride i (containerDiv (page w))).
    repeat split; reflexivity.
Qed.

(** Whatever happens, a refresh leaves at most nine cards where there were
    at most nine. *)
Lemma refreshCard_outcome_bound ride i w :
  Z.of_nat (List.length (containerDiv (page w))) <= maxNumRideCards ->
  Z.of_nat (List.length (containerDiv (page (fst (refreshCard_outcome ride i w)))))
  <= maxNumRideCards.
Proof.
  unfold refreshCard_outcome, maxNumRideCards. simpl. intros H.
  destruct (Z.ltb_spec (Z.of_nat (List.length (containerDiv (page w)))) 9).
  - destruct (renders ride); simpl; [| lia].
    rewrite length_app. simpl. lia.
  - pose proof (length_rewriteCard ride i (containerDiv (page w))) as L.
    destruct (rewriteCard ride i (containerDiv (page w))).
    simpl in *. lia.
Qed.

(** A refresh with a ride that can be drawn does not throw: it adds a card
    while there is room and rewrites one after. *)
Lemma refreshCard_outcome_renders ride i w :
  renders ride = true ->
  snd (refreshCard_outcome ride i w) = false
  /\ (Z.of_nat (List.length (containerDiv (page w))) <= maxNumRideCards ->
      Z.of_nat (List.length (containerDiv (page (fst (refreshCard_outcome ride i w)))))
      = Z.min maxNumRideCards (Z.of_nat (List.length (containerDiv (page w))) + 1)).
Proof.
  intros R. unfold refreshCard_outcome, maxNumRideCards. simpl. rewrite R.
  destruct (Z.ltb_spec (Z.of_nat (List.length (containerDiv (page w)))) 9).
  - split; [reflexivity |]. intros _. simpl. rewrite length_app. simpl. lia.
  - pose proof (length_rewriteCard ride i (containerDiv (page w))) as L.
    pose proof (rewriteCard_renders ride i (containerDiv (page w)) R) as T.
    destruct (rewriteCard ride i (containerDiv (page w))).
    simpl in *. split; [exact T |]. lia.
Qed.

(** The loop of [cycle] writes to the card container and the call log
    only. *)
Lemma cycle_loop_frame sample (l : list nat) (st : World * bool) :
  let w' := fst (fold_left (cycle_body sample) l st) in
  globals w' = globals (fst st)
  /\ alert_message (page w') = alert_message (page (fst st))
  /\ alert_opacity (page w') = alert_opacity (page (fst st))
  /\ statLabels (page w') = statLabels (page (fst st)).
Proof.
  revert st. induction l as [| i l IH]; intros st; cbn zeta.
  - repeat split; reflexivity.
  - cbn [fold_left]. specialize (IH (cycle_body sample st i)). cbn zeta in IH.
    destruct IH as (Hg & Ha & Ho & Hs). rewrite Hg, Ha, Ho, Hs.
    unfold cycle_body. destruct (snd st); [repeat split; reflexivity |].
    destruct (lookup (fst st) (nth i sample "undefined")) as [ride | b |];
      try (repeat split; reflexivity).
    destruct (refreshCard_outcome_frame ride i (fst st)) as (G & A & O & S & _).
    now repeat split.
Qed.

Lemma cycle_loop_bound sample (l : list nat) (st : World * bool) :
  Z.of_nat (List.length (containerDiv (page (fst st)))) <= maxNumRideCards ->
  Z.of_nat (List.length
              (containerDiv (page (fst (fold_left (cycle_body sample) l st)))))
  <= maxNumRideCards.
Proof.
  revert st. induction l as [| i l IH]; intros st H.
  - exact H.
  - cbn [fold_left]. apply IH. unfold cycle_body.
    destruct (snd st); [exact H |].
    destruct (lookup (fst st) (nth i sample "undefined")) as [ride | b |];
      try exact H.
    now apply refreshCard_outcome_bound.
Qed.

Lemma globals_lookup w1 w2 k : globals w1 = globals w2 -> lookup w1 k = lookup w2 k.
Proof.
  unfold globals, lookup. intros H. injection H as H1 H2 _. now rewrite H1, H2.
Qed.

(** The calls and the cards of the loop of [cycle], slot by slot, when every
    ride the loop reads can be drawn: no turn throws. *)
Lemma cycle_loop_calls sample (l : list nat) w :
  (forall i ride, lookup w (nth i sample "undefined") = VRide ride ->
                  renders ride = true) ->
  let calls :=
    flat_map (fun i =>
                match lookup w (nth i sample "undefined") with
                | VRide ride => [Refreshed i ride]
                | _ => []
                end) l in
  let st' := fold_left (cycle_body sample) l (w, false) in
  snd st' = false
  /\ presented (page (fst st')) = (presented (page w) ++ calls)%list
  /\ (Z.of_nat (List.length (containerDiv (page w))) <= maxNumRideCards ->
      Z.of_nat (List.length (containerDiv (page (fst st'))))
      = Z.min maxNumRideCards
          (Z.of_nat (List.length (containerDiv (page w)))
           + Z.of_nat (List.length calls))).
Proof.
  revert w. induction l as [| i l IH]; intros w R; cbn zeta.
  - simpl. rewrite app_nil_r. split; [reflexivity |]. split; [reflexivity |].
    unfold maxNumRideCards. lia.
  - cbn [fold_left flat_map].
    replace (cycle_body sample (w, false) i)
      with (match lookup w (nth i sample "undefined") with
            | VRide ride => refreshCard_outcome ride i w
            | _ => (w, false)
            end) by reflexivity.
    destruct (lookup w (nth i sample "undefined")) as [ride | b |] eqn:L;
      try (cbn [app]; now apply IH).
    pose proof (R i ride L) as Rr.
    destruct (refreshCard_outcome_frame ride i w) as (G & _ & _ & _ & P).
    destruct (refreshCard_outcome_renders ride i w Rr) as (T & C).
    destruct (refreshCard_outcome ride i w) as [w1 t] eqn:E.
    cbn [fst snd] in *. subst t.
    assert (R1 : forall j r, lookup w1 (nth j sample "undefined") = VRide r ->
                             renders r = true).
    { intros j r. rewrite (globals_lookup w1 w _ G). apply R. }
    specialize (IH w1 R1). cbn zeta in IH.
    destruct IH as (IHt & IHp & IHc).
    assert (Same : forall j,
              match lookup w1 (nth j sample "undefined") with
              | VRide r => [Refreshed j r]
              | _ => []
              end
              = match lookup w (nth j sample "undefined") with
                | VRide r => [Refreshed j r]
                | _ => []
                end).
    { intros j. now rewrite (globals_lookup w1 w _ G). }
    rewrite (flat_map_ext _ _ Same) in IHp, IHc.
    split; [exact IHt |]. split.
    + rewrite IHp, P, <- app_assoc. reflexivity.
    + intros H. specialize (C H).
      rewrite IHc by (rewrite C; unfold maxNumRideCards; lia).
      rewrite C, length_app. simpl.
      unfold maxNumRideCards in *. lia.
Qed.

End Cards.

(** * Reachable states *)

Section Reachable.
Implicit Types (w : World) (es : list Event).

Lemma cycle_frame w :
  globals (cycle w) = globals w
  /\ alert_message (page (cycle w)) = alert_message (page w)
  /\ alert_opacity (page (cycle w)) = alert_opacity (page w)
  /\ statLabels (page (cycle w)) = statLabels (page w).
Proof.
  unfold cycle.
  destruct (ws w) as [[| | |] |] eqn:E; rewrite <- ?E;
    try (repeat split; reflexivity).
  exact (cycle_loop_frame (rideSample w) _ (w, false)).
Qed.

Lemma globals_fields w1 w2 :
  globals w1 = globals w2 ->
  rides w1 = rides w2 /\ rides_proto w1 = rides_proto w2
  /\ messageSeq w1 = messageSeq w2 /\ totalUpdates w1 = totalUpdates w2
  /\ activeRides w1 = activeRides w2 /\ ws w1 = ws w2.
Proof.
  unfold globals. intros H. injection H as H1 H2 _ H4 _ _ _ H8 H9 H10.
  now repeat split.
Qed.

Lemma plain_state_initial : plain_state initial.
Proof.
  split; [| split; [reflexivity | simpl; lia]].
  intros H. now elim H.
Qed.

Lemma plain_state_step w e :
  plain_event e = true -> plain_state w -> plain_state (step w e).
Proof.
  intros He (Hc & Hp & Ha).
  assert (Settle : forall w',
            rides w' = rides w -> rides_proto w' = rides_proto w ->
            activeRides w' = activeRides w ->
            (ws w = None -> ws w' = None) ->
            plain_state w').
  { intros w' Er Eq Ea Es. unfold plain_state, consistent.
    rewrite Er, Eq, Ea. repeat split; try assumption.
    intros H. apply Hc. intros F. apply H. now apply Es. }
  destruct e; unfold step.
  - (* Toggle *)
    unfold connect, plain_state, consistent.
    destruct (ws w) as [[| | |] |]; cbn;
      repeat split; try reflexivity; try assumption; try lia;
      intros H; now elim H.
  - (* SocketOpen *)
    destruct (ws w) as [[| | |] |] eqn:E;
      apply Settle; cbn; rewrite ?E; try reflexivity; discriminate.
  - (* SocketClose *)
    destruct (ws w) as [s |] eqn:E;
      apply Settle; cbn; rewrite ?E; try reflexivity; discriminate.
  - (* SocketError *)
    destruct (ws w) as [s |] eqn:E;
      apply Settle; cbn; rewrite ?E; try reflexivity; discriminate.
  - (* Message *)
    simpl in He. apply negb_true_iff in He.
    pose proof (processRide_count ride w Hp He) as C.
    split; [| split].
    + intros H. rewrite processRide_ws in H. specialize (Hc H). lia.
    + rewrite processRide_rides_proto, rides_proto_assign, Hp.
      destruct (String.eqb_spec (ride_id ride) "__proto__") as [P | P].
      * rewrite P in He. discriminate.
      * now destruct (_ && _).
    + lia.
  - (* Tick *)
    destruct (cycle_frame w) as (G & _).
    destruct (globals_fields _ _ G) as (Hr & Hq & _ & _ & Hx & Hs).
    apply Settle; try assumption. now rewrite Hs.
Qed.

(** Every state reached through plain events is a plain state. *)
Lemma plain_state_run es w :
  plain es = true -> plain_state w -> plain_state (run es w).
Proof.
  unfold run, plain. revert w.
  induction es as [| e es IH]; intros w He H; simpl in *.
  - exact H.
  - apply andb_prop in He. destruct He as [He Hes].
    apply IH; [exact Hes |]. now apply plain_state_step.
Qed.

End Reachable.

(** C7 (amended). In every state reached from the start of the script
    through events whose ride identifiers are no names of
    [Object.prototype], and in which the script holds a socket -- after a
    connect or reconnect, and through all event processing, ticks and
    transport closes -- the active count equals the number of identifiers in
    the registry.  A disconnect by the user empties the registry and leaves
    the counter at its last value; the next connect resets both. *)
Theorem active_count_matches_registry_while_socket_held (es : list Event) :
  plain es = true ->
  let w := run es initial in
  (ws w <> None -> activeRides w = registry_count w)
  /\ (ws w = Some OPEN ->
      rides (step w Toggle) = Obj.empty
      /\ activeRides (step w Toggle) = activeRides w
      /\ ws (step w Toggle) = None)
  /\ (ws w <> Some OPEN ->
      rides (step w Toggle) = Obj.empty
      /\ activeRides (step w Toggle) = 0
      /\ ws (step w Toggle) = Some CONNECTING).
Proof.
  intros Hes w.
  destruct (plain_state_run es initial Hes plain_state_initial) as (Hc & _).
  fold w in Hc.
  split; [| split].
  - intros H. unfold registry_count.
    rewrite ObjFacts.length_Object_keys. now apply Hc.
  - intros H. unfold step, connect. rewrite H. repeat split; reflexivity.
  - intros H. unfold step, connect.
    destruct (ws w) as [[| | |] |]; try (repeat split; reflexivity).
    now elim H.
Qed.

Lemma active_count_matches_registry_while_socket_held_witness :
  let w := run [Toggle; SocketOpen; Message (ev "a" "pickup" 2 0);
                Message (ev "b" "enroute" 1 4); Tick;
                Message (ev "a" "dropoff" 2 7)] initial in
  activeRides w = registry_count w.
Proof.
  refine (proj1 (active_count_matches_registry_while_socket_held
                   [Toggle; SocketOpen; Message (ev "a" "pickup" 2 0);
                    Message (ev "b" "enroute" 1 4); Tick;
                    Message (ev "a" "dropoff" 2 7)] _) _).
  - vm_compute. reflexivity.
  - vm_compute. discriminate.
Defined.

(** C7 (as stated, refuted). Connect, receive one pickup, then disconnect by
    the control: the registry is empty and the active count is still 1. *)
Lemma disconnect_keeps_active_count :
  let w := run [Toggle; SocketOpen; Message (ev "a" "pickup" 2 0); Toggle] initial in
  ws w = None
  /\ rides w = Obj.empty
  /\ registry_count w = 0
  /\ activeRides w = 1
  /\ (activeRides w =? registry_count w) = false.
Proof. vm_compute. repeat split. Qed.

(** An identifier that names a property of [Object.prototype] reads as
    tracked before it is seen: its first event is not counted, and its first
    dropoff lowers the counter.  After [pickup toString] the registry has one
    identifier and the active count is 0; after [dropoff toString] instead
    the registry is empty and the active count is -1. *)
Example inherited_name_is_not_counted :
  let w1 := run (feed [ev "toString" "pickup" 2 0]) connected in
  let w2 := run (feed [ev "toString" "dropoff" 2 0]) connected in
  (registry_count w1, activeRides w1) = (1, 0)
  /\ (registry_count w2, activeRides w2) = (0, -1).
Proof. vm_compute. split; reflexivity. Qed.

(** * The sampler *)

(** C9. Claim: on a tick with fewer active rides than cards, as many slots
    are refreshed as there are active rides, one per ride, and the other
    slots are left alone.  The code, with five active rides a, b, c, d, e:
    [slice] receives 5 - 9 = -4 and keeps the last four keys, so the tick
    refreshes slots 0 to 3 with b, c, d, e; ride a gets no slot. *)
Theorem five_rides_refresh_four_slots :
  activeRides five_rides = 5
  /\ Obj.Object_keys (rides five_rides) = ["a"; "b"; "c"; "d"; "e"]
  /\ rideSample five_rides = ["b"; "c"; "d"; "e"]
  /\ refreshes (presented (page (step five_rides Tick)))
     = [(0%nat, "b"); (1%nat, "c"); (2%nat, "d"); (3%nat, "e")]
  /\ List.length (containerDiv (page (step five_rides Tick))) = 4%nat.
Proof. vm_compute. repeat split. Qed.

Lemma slice_window {A : Type} (l : list A) :
  let n := List.length l in
  (n <= 4 \/ 9 <= n)%nat ->
  slice (Z.of_nat n - maxNumRideCards) l = lastn (Nat.min n 9) l.
Proof.
  intros n H. unfold slice, lastn, maxNumRideCards. fold n.
  f_equal.
  destruct (Z.ltb_spec (Z.of_nat n - 9) 0); lia.
Qed.

(** With five to eight rides tracked the negative start of [slice] counts
    from the end, and the window shrinks to 9 minus the number of rides. *)
Lemma slice_short_window {A : Type} (l : list A) :
  let n := List.length l in
  (5 <= n <= 8)%nat ->
  slice (Z.of_nat n - maxNumRideCards) l = lastn (9 - n) l.
Proof.
  intros n H. unfold slice, lastn, maxNumRideCards. fold n.
  f_equal.
  destruct (Z.ltb_spec (Z.of_nat n - 9) 0); lia.
Qed.

(** On an open socket with five to eight rides tracked, all of plain
    identifiers, a tick samples the last 9 - n keys only. *)
Lemma short_sample (es : list Event) :
  plain es = true ->
  let w := run es initial in
  let n := List.length (rides w) in
  ws w = Some OPEN -> (5 <= n <= 8)%nat ->
  rideSample w = lastn (9 - n) (Obj.Object_keys (rides w))
  /\ List.length (rideSample w) = (9 - n)%nat.
Proof.
  intros Hes w n Hws Hn.
  destruct (plain_state_run es initial Hes plain_state_initial) as (Hc & _).
  fold w in Hc.
  assert (E : rideSample w = lastn (9 - n) (Obj.Object_keys (rides w))).
  { unfold rideSample. rewrite Hc by congruence.
    pose proof (ObjFacts.length_Object_keys (rides w)) as L.
    unfold n in *. rewrite <- L in Hn |- *.
    now apply slice_short_window. }
  split; [exact E |].
  rewrite E. unfold lastn. rewrite length_skipn.
  rewrite (ObjFacts.length_Object_keys (rides w)). fold n. lia.
Qed.

(** C10 (amended). With at most four or at least nine rides tracked, none
    under an identifier that names a property of [Object.prototype], the
    window a tick samples is the last min(active count, 9) identifiers of
    [Object.keys] of the registry.  That enumeration puts the identifiers
    that are array indices first, in ascending numeric order, and then the
    other identifiers in the order their entries were created; with no array
    index among them it is creation order.  A later non-terminal event of a
    tracked ride replaces its record in place and moves nothing, so the
    window does not follow the most recently touched rides. *)
Theorem sample_is_tail_of_Object_keys (es : list Event) :
  let w := run es initial in
  let n := List.length (rides w) in
  (plain es = true -> ws w = Some OPEN -> (n <= 4 \/ 9 <= n)%nat ->
   rideSample w = lastn (Nat.min n 9) (Obj.Object_keys (rides w)))
  /\ (exists idx : list (N * string),
        Obj.Object_keys (rides w)
        = (map snd idx
           ++ filter (fun k => negb (Obj.is_index k)) (Obj.names (rides w)))%list
        /\ Permutation (map snd idx) (filter Obj.is_index (Obj.names (rides w)))
        /\ Forall (fun x => Obj.array_index (snd x) = Some (fst x)) idx
        /\ Sorted index_le idx)
  /\ (Forall (fun k => Obj.is_index k = false) (Obj.names (rides w)) ->
      Obj.Object_keys (rides w) = Obj.names (rides w))
  /\ (forall e : Ride,
        Obj.get (ride_id e) (rides w) <> None ->
        ride_status e <> "dropoff" ->
        Obj.names (rides (processRide e w)) = Obj.names (rides w)
        /\ Obj.Object_keys (rides (processRide e w)) = Obj.Object_keys (rides w)).
Proof.
  intros w n.
  split; [| split; [| split]].
  - intros Hes Hws Hn.
    destruct (plain_state_run es initial Hes plain_state_initial) as (Hc & _).
    fold w in Hc.
    unfold rideSample.
    rewrite Hc by congruence.
    pose proof (ObjFacts.length_Object_keys (rides w)) as L.
    unfold n in *. rewrite <- L in Hn |- *.
    now apply slice_window.
  - apply ObjFacts.Object_keys_split.
  - apply ObjFacts.Object_keys_plain.
  - intros e Hin Hst.
    assert (E : Obj.names (rides (processRide e w)) = Obj.names (rides w)).
    { rewrite processRide_rides, rides_assign.
      apply String.eqb_neq in Hst. rewrite Hst, andb_false_r.
      destruct (ride_id e =? "__proto__")%string; [reflexivity |].
      now apply ObjFacts.names_set_present. }
    split; [exact E |].
    unfold Obj.Object_keys. now rewrite E.
Qed.

Lemma sample_is_tail_of_Object_keys_witness :
  let w := run [Toggle; SocketOpen; Message (ev "x" "pickup" 1 0);
                Message (ev "7" "pickup" 1 0); Message (ev "y" "enroute" 1 0);
                Message (ev "x" "enroute" 1 4)] initial in
  rideSample w = lastn (Nat.min (List.length (rides w)) 9)
                       (Obj.Object_keys (rides w)).
Proof.
  refine (proj1 (sample_is_tail_of_Object_keys
                   [Toggle; SocketOpen; Message (ev "x" "pickup" 1 0);
                    Message (ev "7" "pickup" 1 0); Message (ev "y" "enroute" 1 0);
                    Message (ev "x" "enroute" 1 4)]) _ _ _).
  - vm_compute. reflexivity.
  - vm_compute. reflexivity.
  - left. vm_compute. lia.
Defined.

(** The start of the slice is the counter, not the number of keys: after a
    first pickup of [toString] and eight more rides the registry has nine
    keys, the active count is 8, and the tick samples the last key only. *)
Example inherited_name_shifts_the_window :
  let w := run (feed [ev "toString" "pickup" 1 0;
                      ev "a" "pickup" 1 0; ev "b" "pickup" 1 0;
                      ev "c" "pickup" 1 0; ev "d" "pickup" 1 0;
                      ev "e" "pickup" 1 0; ev "f" "pickup" 1 0;
                      ev "g" "pickup" 1 0; ev "h" "pickup" 1 0]) connected in
  registry_count w = 9
  /\ activeRides w = 8
  /\ rideSample w = ["h"].
Proof. vm_compute. repeat split. Qed.

(** C10 (as stated, refuted). Ride 2 is seen first, then ride 1: the
    registry was filled in the order 2, 1, and the tick samples 1 for slot 0
    and 2 for slot 1, the numeric order of the two identifiers. *)
Lemma numeric_identifiers_are_sampled_in_numeric_order :
  let w := run (feed [ev "2" "pickup" 1 0; ev "1" "pickup" 1 0]) connected in
  Obj.names (rides w) = ["2"; "1"]
  /\ activeRides w = 2
  /\ lastn (Nat.min 2 9) (Obj.names (rides w)) = ["2"; "1"]
  /\ rideSample w = ["1"; "2"]
  /\ refreshes (presented (page (step w Tick))) = [(0%nat, "1"); (1%nat, "2")].
Proof. vm_compute. repeat split. Qed.

(** * Card markup and coordinates *)

Module StringFacts.

Lemma append_empty_r (s : string) : s ++ "" = s.
Proof. induction s as [| c s IH]; simpl; [reflexivity | now rewrite IH]. Qed.

Lemma append_assoc (a b c : string) : (a ++ b) ++ c = a ++ (b ++ c).
Proof. induction a as [| x a IH]; simpl; [reflexivity | now rewrite IH]. Qed.

Lemma length_substring_0 (n : nat) (s : string) :
  String.length (substring 0 n s) = Nat.min n (String.length s).
Proof.
  revert n. induction s as [| c s IH]; intros [| n]; simpl; try reflexivity.
  now rewrite IH.
Qed.

Lemma prefix_substring_0 (n : nat) (s : string) :
  prefix (substring 0 n s) s = true.
Proof.
  revert n. induction s as [| c s IH]; intros [| n]; simpl; try reflexivity.
  destruct (ascii_dec c c) as [_ | N]; [apply IH | now elim N].
Qed.

Lemma substring_0_twice (n : nat) (s : string) :
  substring 0 n (substring 0 n s) = substring 0 n s.
Proof.
  revert n. induction s as [| c s IH]; intros [| n]; simpl; try reflexivity.
  now rewrite IH.
Qed.

(** The first point of a string, one character at a time. *)
Lemma index_point (c : ascii) (s : string) :
  index 0 "." (String c s)
  = if ascii_dec "." c then Some 0%nat
    else option_map S (index 0 "." s).
Proof.
  change (index 0 "." (String c s))
    with (if prefix "." (String c s) then Some 0%nat
          else match index 0 "." s with
               | Some n => Some (S n)
               | None => None
               end).
  change (prefix "." (String c s))
    with (match ascii_dec "." c with
          | left _ => prefix "" s
          | right _ => false
          end).
  destruct (ascii_dec "." c) as [E | N].
  - now destruct s.
  - now destruct (index 0 "." s).
Qed.

Lemma index_point_substring (s : string) (i n : nat) :
  index 0 "." s = Some i -> (i < n)%nat ->
  index 0 "." (substring 0 n s) = Some i.
Proof.
  revert i n. induction s as [| c s IH]; intros i n H Hn.
  - discriminate.
  - destruct n as [| n]; [lia |].
    rewrite index_point in H.
    change (substring 0 (S n) (String c s)) with (String c (substring 0 n s)).
    rewrite index_point.
    destruct (ascii_dec "." c) as [E | N]; [exact H |].
    destruct (index 0 "." s) as [j |] eqn:J; [| discriminate].
    simpl in H. injection H as <-.
    rewrite (IH j n eq_refl) by lia. reflexivity.
Qed.

Lemma index_point_substring_none (s : string) (n : nat) :
  index 0 "." s = None -> index 0 "." (substring 0 n s) = None.
Proof.
  revert n. induction s as [| c s IH]; intros n H.
  - now destruct n.
  - destruct n as [| n]; [reflexivity |].
    rewrite index_point in H.
    change (substring 0 (S n) (String c s)) with (String c (substring 0 n s)).
    rewrite index_point.
    destruct (ascii_dec "." c) as [E | N]; [discriminate |].
    destruct (index 0 "." s) as [j |] eqn:J; [discriminate |].
    now rewrite IH.
Qed.

End StringFacts.

Section Coordinates.
Import StringFacts.

(** How many characters [formatCoordinate] keeps. *)
Lemma formatCoordinate_cut (coord : string) :
  coord <> "" ->
  exists n : nat,
    formatCoordinate coord = Some (substring 0 n coord)
    /\ (4 <= n)%nat
    /\ match index 0 "." coord with
       | Some i => n = (i + 5)%nat
       | None => n = 4%nat
       end.
Proof.
  intros H. unfold formatCoordinate.
  apply String.eqb_neq in H. rewrite H.
  destruct (index 0 "." coord) as [i |].
  - exists (i + 5)%nat. repeat split; [f_equal; f_equal; lia | lia].
  - exists 4%nat. repeat split; lia.
Qed.

End Coordinates.

(** X1. [formatCoordinate] gives [undefined] for the empty text only.
    Otherwise it gives a prefix of the text: up to and including four
    characters after the first point or, without a point, the first four
    characters. *)
Theorem formatCoordinate_keeps_four_decimals (coord : string) :
  (formatCoordinate coord = None <-> coord = "")
  /\ (forall p, formatCoordinate coord = Some p ->
        prefix p coord = true
        /\ String.length p
           = match index 0 "." coord with
             | Some i => Nat.min (i + 5) (String.length coord)
             | None => Nat.min 4 (String.length coord)
             end).
Proof.
  split.
  - split.
    + intros H. destruct (string_dec coord "") as [E | N]; [exact E |].
      destruct (formatCoordinate_cut coord N) as (n & Hn & _). congruence.
    + intros ->. reflexivity.
  - intros p H.
    destruct (string_dec coord "") as [E | N]; [subst; discriminate |].
    destruct (formatCoordinate_cut coord N) as (n & Hn & _ & Hi).
    rewrite Hn in H. injection H as <-.
    split; [apply StringFacts.prefix_substring_0 |].
    rewrite StringFacts.length_substring_0.
    destruct (index 0 "." coord); now subst n.
Qed.

(** X2. Formatting a coordinate that is already formatted changes
    nothing. *)
Theorem formatCoordinate_idempotent (coord p : string) :
  formatCoordinate coord = Some p -> formatCoordinate p = Some p.
Proof.
  intros H.
  destruct (string_dec coord "") as [E | N]; [subst; discriminate |].
  destruct (formatCoordinate_cut coord N) as (n & Hn & H4 & Hi).
  rewrite Hn in H. injection H as <-.
  assert (Np : substring 0 n coord <> "").
  { destruct coord as [| c s]; [now elim N |].
    destruct n as [| n]; [lia | discriminate]. }
  destruct (formatCoordinate_cut _ Np) as (m & Hm & _ & Hj).
  rewrite Hm. f_equal.
  destruct (index 0 "." coord) as [i |] eqn:I.
  - rewrite (StringFacts.index_point_substring coord i n I) in Hj by lia.
    subst. apply StringFacts.substring_0_twice.
  - rewrite (StringFacts.index_point_substring_none coord n I) in Hj.
    subst. apply StringFacts.substring_0_twice.
Qed.

Lemma formatCoordinate_idempotent_witness :
  formatCoordinate "-73.9934" = Some "-73.9934".
Proof.
  apply (formatCoordinate_idempotent "-73.99345678" "-73.9934").
  reflexivity.
Defined.

Section Passengers.
Import StringFacts.

Lemma below_spec (i : Z) (q : Q) :
  below i (Fin q) = true <-> (inject_Z i < q)%Q.
Proof.
  unfold below. rewrite negb_true_iff.
  split.
  - intros H. apply Qnot_le_lt. intros L.
    apply Qle_bool_iff in L. congruence.
  - intros H. destruct (Qle_bool q (inject_Z i)) eqn:E; [| reflexivity].
    apply Qle_bool_iff in E. exfalso. exact (Qlt_not_le _ _ H E).
Qed.

Lemma is_last_spec (i : Z) (q : Q) :
  is_last i (Fin q) = true <-> (q == inject_Z (i + 1))%Q.
Proof.
  unfold is_last. rewrite Qeq_bool_iff, inject_Z_plus.
  split; intros H.
  - rewrite H. ring.
  - rewrite H. ring.
Qed.

(** The loop on a whole count [n]: from counter [n - 1 - k] there are
    [k + 1] icons left to add. *)
Lemma persons_loop_whole (q : Q) (n : Z) (k : nat) :
  (q == inject_Z n)%Q ->
  forall (fuel : nat) (span : string),
    0 <= n - 1 - Z.of_nat k -> (k < fuel)%nat ->
    persons_loop fuel (n - 1 - Z.of_nat k) (Fin q) span
    = Some (Some (span ++ copies (S k) person_icon)).
Proof.
  intros Hq. induction k as [| k IH]; intros fuel span Hi Hf;
    (destruct fuel as [| fuel]; [lia |]).
  - cbn [persons_loop].
    assert (B : below (n - 1 - 0) (Fin q) = true).
    { apply below_spec. rewrite Hq, <- Zlt_Qlt. lia. }
    assert (L : is_last (n - 1 - 0) (Fin q) = true).
    { apply is_last_spec. rewrite Hq. apply (proj2 (inject_Z_injective _ _)). lia. }
    cbn [Z.of_nat]. rewrite B, L. cbn [copies].
    now rewrite append_empty_r.
  - cbn [persons_loop].
    assert (B : below (n - 1 - Z.of_nat (S k)) (Fin q) = true).
    { apply below_spec. rewrite Hq, <- Zlt_Qlt. lia. }
    assert (L : is_last (n - 1 - Z.of_nat (S k)) (Fin q) = false).
    { destruct (is_last _ _) eqn:E; [| reflexivity].
      apply is_last_spec in E. rewrite Hq in E.
      apply (proj1 (inject_Z_injective _ _)) in E. lia. }
    rewrite B, L.
    replace (n - 1 - Z.of_nat (S k) + 1) with (n - 1 - Z.of_nat k) by lia.
    rewrite IH by lia.
    change (copies (S (S k)) person_icon)
      with (person_icon ++ copies (S k) person_icon).
    now rewrite append_assoc.
Qed.

(** The loop on a count that is not whole never meets its [return]. *)
Lemma persons_loop_fraction (q : Q) (k : nat) :
  (forall n : Z, ~ (q == inject_Z n)%Q) ->
  forall (i : Z) (span : string),
    0 <= i -> Z.of_nat k = Qceiling q - i ->
    persons_loop (S k) i (Fin q) span = Some None.
Proof.
  intros Hq. induction k as [| k IH]; intros i span Hi Hk.
  - cbn [persons_loop].
    assert (B : below i (Fin q) = false).
    { destruct (below i (Fin q)) eqn:E; [| reflexivity].
      apply below_spec in E.
      pose proof (Qle_ceiling q) as C.
      replace i with (Qceiling q) in E by lia.
      exfalso. exact (Qlt_not_le _ _ E C). }
    now rewrite B.
  - cbn [persons_loop].
    assert (B : below i (Fin q) = true).
    { apply below_spec.
      eapply Qle_lt_trans; [| apply Qceiling_lt].
      rewrite <- Zle_Qle. lia. }
    assert (L : is_last i (Fin q) = false).
    { destruct (is_last i (Fin q)) eqn:E; [| reflexivity].
      apply is_last_spec in E. now elim (Hq (i + 1)). }
    rewrite B, L. apply IH; lia.
Qed.

Lemma positive_spec (q : Q) : positive (Fin q) = true <-> (0 < q)%Q.
Proof.
  unfold positive, sgn, Qlt. simpl.
  destruct (Qnum q ?= 0) eqn:E.
  - apply (proj1 (Z.compare_eq_iff _ _)) in E. split; [discriminate | intros; exfalso; lia].
  - apply (proj1 (Z.compare_lt_iff _ _)) in E. split; [discriminate | intros; exfalso; lia].
  - apply (proj1 (Z.compare_gt_iff _ _)) in E. split; [intros; lia | reflexivity].
Qed.

Lemma makePassengers_whole_aux (q : Q) (n : Z) :
  (q == inject_Z n)%Q -> 1 <= n ->
  makePassengers (Fin q)
  = Some (Some ("<br>" ++ copies (Z.to_nat n) person_icon)).
Proof.
  intros Hq Hn. unfold makePassengers.
  assert (P : positive (Fin q) = true).
  { apply positive_spec. rewrite Hq.
    change 0%Q with (inject_Z 0). rewrite <- Zlt_Qlt. lia. }
  rewrite P, (Qceiling_comp _ _ Hq), Qceiling_Z.
  pose proof (persons_loop_whole q n (Z.to_nat (n - 1)) Hq
                (S (Z.to_nat n)) "<br>") as L.
  replace (n - 1 - Z.of_nat (Z.to_nat (n - 1))) with 0 in L by lia.
  rewrite L by lia.
  replace (S (Z.to_nat (n - 1))) with (Z.to_nat n) by lia.
  reflexivity.
Qed.

Lemma makePassengers_fraction_aux (q : Q) :
  (0 < q)%Q -> (forall n : Z, ~ (q == inject_Z n)%Q) ->
  makePassengers (Fin q) = Some None.
Proof.
  intros Hp Hq. unfold makePassengers.
  rewrite (proj2 (positive_spec q) Hp).
  apply persons_loop_fraction; [exact Hq | lia |].
  assert (0 <= Qceiling q).
  { change 0 with (Qceiling 0). apply Qceiling_resp_le. now apply Qlt_le_weak. }
  lia.
Qed.

End Passengers.

(** X3. For a whole count from one to a million, [makePassengers] returns
    the line break followed by one person icon per passenger.  In that range
    the counter of the loop is exact and the string stays far below the
    longest one an engine holds. *)
Theorem makePassengers_whole (q : Q) (n : Z) :
  (q == inject_Z n)%Q -> 1 <= n <= 1000000 ->
  makePassengers (Fin q)
  = Some (Some ("<br>" ++ copies (Z.to_nat n) person_icon)).
Proof. intros Hq [Hn _]. exact (makePassengers_whole_aux q n Hq Hn). Qed.

Lemma makePassengers_whole_witness :
  makePassengers (Fin (6 # 2))
  = Some (Some ("<br>" ++ copies 3 person_icon)).
Proof.
  apply (makePassengers_whole (6 # 2) 3); [reflexivity | lia].
Defined.



Lemma makePassengers_finite (q : Q) : makePassengers (Fin q) <> None.
Proof.
  destruct (positive (Fin q)) eqn:P.
  - apply positive_spec in P.
    destruct (Qeq_dec q (inject_Z (Qceiling q))) as [E | N].
    + rewrite (makePassengers_whole_aux q (Qceiling q) E); [discriminate |].
      destruct (Z.le_gt_cases 1 (Qceiling q)) as [L | G]; [exact L |].
      exfalso. pose proof (Qle_ceiling q) as C.
      assert (Qceiling q <= 0) as Z0 by lia.
      apply (Qlt_not_le _ _ P). eapply Qle_trans; [exact C |].
      change 0%Q with (inject_Z 0). now rewrite <- Zle_Qle.
    + rewrite makePassengers_fraction_aux; [discriminate | exact P |].
      intros n H. apply N.
      now rewrite (Qceiling_comp _ _ H), Qceiling_Z.
  - unfold makePassengers. rewrite P. discriminate.
Qed.

(** X5. For every finite count up to a million [makePassengers] comes
    back, with a string or with [undefined]; and for a count for which
    [count > 0] is false -- zero, negative, [NaN] -- what it returns is the
    line break followed by the refresh icon. *)
Theorem makePassengers_returns (count : num) :
  (forall q : Q, count = Fin q -> (q <= 1000000)%Q ->
     makePassengers count <> None)
  /\ (positive count = false ->
      makePassengers count = Some (Some ("<br>" ++ refresh_icon))).
Proof.
  split.
  - intros q -> _. apply makePassengers_finite.
  - intros P. unfold makePassengers. now rewrite P.
Qed.

(** * The registry and the page in every reachable state *)

Module RegistryFacts.
Import Obj.

Section Props.
Context {A : Type}.
Implicit Types (o : Obj.t A) (k : string) (v : A).

Lemma get_set_other k k' v o :
  k' <> k -> get k' (set k v o) = get k' o.
Proof.
  intros N. induction o as [| [k0 v0] o IH]; simpl.
  - apply String.eqb_neq in N. now rewrite N.
  - destruct (String.eqb_spec k k0) as [E | E]; simpl.
    + subst k0. apply String.eqb_neq in N. now rewrite N.
    + now rewrite IH.
Qed.

Lemma get_delete_other k k' o :
  k' <> k -> get k' (delete k o) = get k' o.
Proof.
  intros N. induction o as [| [k0 v0] o IH]; simpl.
  - reflexivity.
  - destruct (String.eqb_spec k k0) as [E | E]; simpl.
    + subst k0. apply String.eqb_neq in N. now rewrite N.
    + now rewrite IH.
Qed.

Lemma get_none_iff k o : get k o = None <-> ~ In k (names o).
Proof.
  unfold names. induction o as [| [k0 v0] o IH]; simpl.
  - split; [intros _ [] | reflexivity].
  - destruct (String.eqb_spec k k0) as [E | E].
    + split; [discriminate | intros H; elim H; now left].
    + rewrite IH. split.
      * intros H [F | F]; [now elim E | now elim H].
      * intros H F. apply H. now right.
Qed.

Lemma get_In k v o : get k o = Some v -> In (k, v) o.
Proof.
  induction o as [| [k0 v0] o IH]; simpl.
  - discriminate.
  - destruct (String.eqb_spec k k0) as [E | E].
    + intros H. injection H as ->. subst. now left.
    + intros H. right. now apply IH.
Qed.

Lemma names_delete_incl k k' o :
  In k' (names (delete k o)) -> In k' (names o).
Proof.
  unfold names. induction o as [| [k0 v0] o IH]; simpl.
  - intros [].
  - destruct (String.eqb k k0); simpl.
    + intros H. now right.
    + intros [H | H]; [now left | right; now apply IH].
Qed.

Lemma NoDup_names_delete k o :
  NoDup (names o) -> NoDup (names (delete k o)).
Proof.
  unfold names. induction o as [| [k0 v0] o IH]; simpl; intros H.
  - constructor.
  - inversion H as [| x l Hx Hl]; subst.
    destruct (String.eqb k k0); simpl; [exact Hl |].
    constructor; [| now apply IH].
    intros F. apply Hx. now apply (names_delete_incl k).
Qed.

Lemma get_delete_same k o :
  NoDup (names o) -> get k (delete k o) = None.
Proof.
  unfold names. induction o as [| [k0 v0] o IH]; simpl; intros H.
  - reflexivity.
  - inversion H as [| x l Hx Hl]; subst.
    destruct (String.eqb_spec k k0) as [E | E]; simpl.
    + subst k0. now apply get_none_iff.
    + apply String.eqb_neq in E. rewrite E. now apply IH.
Qed.

Lemma NoDup_names_set k v o :
  NoDup (names o) -> NoDup (names (set k v o)).
Proof.
  intros H. destruct (get k o) eqn:G.
  - rewrite ObjFacts.names_set_present; [exact H | congruence].
  - rewrite ObjFacts.names_set_absent by assumption.
    apply get_none_iff in G.
    apply NoDup_rev in H. rewrite <- (rev_involutive (names o ++ [k])).
    apply NoDup_rev. rewrite rev_app_distr. simpl.
    constructor; [| exact H].
    intros F. apply G. now apply in_rev.
Qed.

Lemma Forall_set (P : string * A -> Prop) k v o :
  P (k, v) -> Forall P o -> Forall P (set k v o).
Proof.
  intros Hk. induction 1 as [| [k0 v0] o H0 Ho IH]; simpl.
  - now repeat constructor.
  - destruct (String.eqb_spec k k0) as [E | E].
    + subst k0. now constructor.
    + now constructor.
Qed.

Lemma Forall_delete (P : string * A -> Prop) k o :
  Forall P o -> Forall P (delete k o).
Proof.
  induction 1 as [| [k0 v0] o H0 Ho IH]; simpl.
  - constructor.
  - destruct (String.eqb k k0); [exact Ho | now constructor].
Qed.

Lemma In_set (kv : string * A) k v o :
  In kv (set k v o) -> kv = (k, v) \/ In kv o.
Proof.
  induction o as [| [k0 v0] o IH]; simpl.
  - intros [H | []]. now left.
  - destruct (String.eqb_spec k k0) as [E | E]; simpl.
    + subst k0. intros [H | H]; [now left | right; now right].
    + intros [H | H]; [right; now left |].
      destruct (IH H) as [F | F]; [now left | right; now right].
Qed.

Lemma In_delete (kv : string * A) k o :
  In kv (delete k o) -> In kv o.
Proof.
  induction o as [| [k0 v0] o IH]; simpl.
  - intros [].
  - destruct (String.eqb k k0); simpl.
    + intros H. now right.
    + intros [H | H]; [now left | right; now apply IH].
Qed.

(** A tag that no entry carries stays unique when stored. *)
Lemma NoDup_map_set {B : Type} (g : string * A -> B) k v o :
  (forall kv, In kv o -> g kv <> g (k, v)) ->
  NoDup (map g o) -> NoDup (map g (set k v o)).
Proof.
  induction o as [| [k0 v0] o IH]; simpl; intros Hg H.
  - repeat constructor. intros [].
  - inversion H as [| x l Hx Hl]; subst.
    destruct (String.eqb_spec k k0) as [E | E]; simpl.
    + subst k0. constructor; [| exact Hl].
      intros F. apply in_map_iff in F. destruct F as (kv & F1 & F2).
      apply (Hg kv); [now right | exact F1].
    + constructor.
      * intros F. apply in_map_iff in F. destruct F as (kv & F1 & F2).
        destruct (In_set _ _ _ _ F2) as [F3 | F3].
        -- subst kv. apply (Hg (k0, v0)); [now left | now symmetry].
        -- apply Hx. rewrite <- F1. now apply in_map.
      * apply IH; [| exact Hl]. intros kv F. apply Hg. now right.
Qed.

Lemma NoDup_map_delete {B : Type} (g : string * A -> B) k o :
  NoDup (map g o) -> NoDup (map g (delete k o)).
Proof.
  induction o as [| [k0 v0] o IH]; simpl; intros H.
  - constructor.
  - inversion H as [| x l Hx Hl]; subst.
    destruct (String.eqb k k0); simpl; [exact Hl |].
    constructor; [| now apply IH].
    intros F. apply Hx. apply in_map_iff in F. destruct F as (kv & F1 & F2).
    rewrite <- F1. apply in_map. now apply (In_delete _ k).
Qed.

Lemma NoDup_map_inj {B : Type} (g : string * A -> B) (a b : string * A) o :
  NoDup (map g o) -> In a o -> In b o -> g a = g b -> a = b.
Proof.
  induction o as [| x o IH]; simpl; intros H Ha Hb E.
  - contradiction.
  - inversion H as [| y l Hx Hl]; subst.
    destruct Ha as [Ha | Ha], Hb as [Hb | Hb].
    + congruence.
    + subst x. elim Hx. rewrite E. now apply in_map.
    + subst x. elim Hx. rewrite <- E. now apply in_map.
    + now apply IH.
Qed.

End Props.

Lemma split_by_index (l : list string) :
  Permutation (filter is_index l ++ filter (fun k => negb (is_index k)) l) l.
Proof.
  induction l as [| k l IH]; simpl.
  - constructor.
  - destruct (is_index k); simpl.
    + now constructor.
    + apply Permutation_sym.
      eapply perm_trans; [| apply Permutation_middle].
      constructor. now apply Permutation_sym.
Qed.

(** [Object.keys] lists every name once. *)
Lemma Object_keys_perm {A : Type} (o : Obj.t A) :
  Permutation (Object_keys o) (names o).
Proof.
  unfold Object_keys.
  eapply perm_trans; [| apply split_by_index].
  apply Permutation_app_tail.
  rewrite <- (proj1 (ObjFacts.indexed_spec (names o))).
  apply Permutation_map, Permutation_sym, ObjFacts.sort_index_perm.
Qed.

End RegistryFacts.

Section Variables.
Implicit Types (w : World) (e ride : Ride).

(** [processRide] reads the variables only: two states with the same
    variables end with the same variables. *)
Lemma processRide_globals e w1 w2 :
  globals w1 = globals w2 ->
  globals (processRide e w1) = globals (processRide e w2).
Proof.
  destruct w1 as [r1 q1 m1 u1 p1 d1 mp1 s1 a1 ws1 pg1].
  destruct w2 as [r2 q2 m2 u2 p2 d2 mp2 s2 a2 ws2 pg2].
  unfold globals. simpl. intros H. injection H as -> -> -> -> -> -> -> -> -> ->.
  unfold processRide, tracked, lookup, sequence, assign. simpl.
  destruct (truthy (read r2 q2 (ride_id e))); simpl.
  - destruct (ride_status e =? "dropoff")%string eqn:D; simpl.
    + unfold updateStats, updateMeterTotal. simpl. now rewrite D.
    + destruct (ride_status e =? "pickup")%string; simpl;
        destruct (ride_id e =? "__proto__")%string; simpl;
        unfold updateStats, updateMeterTotal, lookup; simpl; rewrite D;
        match goal with
        | |- context [read ?a ?b ?c] => destruct (read a b c) as [x | [|] |]
        end; reflexivity.
  - destruct (ride_id e =? "__proto__")%string; simpl;
      unfold updateStats, updateMeterTotal; simpl;
      destruct (ride_status e =? "dropoff")%string; reflexivity.
Qed.

Lemma globals_ws w1 w2 : globals w1 = globals w2 -> ws w1 = ws w2.
Proof. unfold globals. intros H. now injection H. Qed.

Lemma step_globals (ev0 : Event) w1 w2 :
  globals w1 = globals w2 -> globals (step w1 ev0) = globals (step w2 ev0).
Proof.
  intros H. pose proof (globals_ws _ _ H) as Hws.
  destruct ev0; unfold step.
  - unfold connect. rewrite <- Hws.
    destruct (ws w1) as [[| | |] |]; try reflexivity.
    destruct w1, w2. unfold globals in *. simpl in *.
    injection H as -> -> -> -> -> -> -> -> -> ->. reflexivity.
  - rewrite <- Hws. destruct (ws w1) as [[| | |] |]; try exact H.
    destruct w1, w2. unfold globals in *. simpl in *.
    injection H as -> -> -> -> -> -> -> -> -> ->. reflexivity.
  - rewrite <- Hws. destruct (ws w1) as [s |]; [| exact H].
    destruct w1, w2. unfold globals in *. simpl in *.
    injection H as -> -> -> -> -> -> -> -> -> ->. reflexivity.
  - rewrite <- Hws. destruct (ws w1) as [s |]; [| exact H].
    destruct w1, w2. unfold globals in *. simpl in *.
    injection H as -> -> -> -> -> -> -> -> -> ->. reflexivity.
  - now apply processRide_globals.
  - rewrite (proj1 (cycle_frame w1)), (proj1 (cycle_frame w2)). exact H.
Qed.

Lemma run_globals (es : list Event) w1 w2 :
  globals w1 = globals w2 -> globals (run es w1) = globals (run es w2).
Proof.
  unfold run. revert w1 w2.
  induction es as [| ev0 es IH]; intros w1 w2 H; simpl.
  - exact H.
  - apply IH. now apply step_globals.
Qed.

End Variables.

Section WellFormed.
Import RegistryFacts.
Implicit Types (w : World) (e ride : Ride).

Lemma tagged_below_mono (m m' : Z) (r : Ride) :
  m <= m' -> tagged_below m r -> tagged_below m' r.
Proof. intros H (n & Hn & Hb). exists n. split; [exact Hn | lia]. Qed.

Lemma well_formed_processRide e w :
  well_formed w -> well_formed (processRide e w).
Proof.
  intros (Hn & Hk & Ht & Hs & Hq & Hm & Hu & Hc).
  unfold well_formed.
  rewrite processRide_rides, processRide_messageSeq,
    processRide_totalUpdates, processRide_containerDiv, rides_assign.
  set (r' := set_sequenceNumber (messageSeq w) e).
  assert (Later : Forall (fun kv => tagged_below (messageSeq w + 1) (snd kv))
                    (rides w)).
  { eapply Forall_impl; [| exact Ht]. intros kv. apply tagged_below_mono. lia. }
  assert (Stored :
    (ride_id e =? "__proto__")%string = false ->
    NoDup (Obj.names (Obj.set (ride_id e) r' (rides w)))
    /\ Forall (fun kv => ride_id (snd kv) = fst kv)
         (Obj.set (ride_id e) r' (rides w))
    /\ Forall (fun kv => tagged_below (messageSeq w + 1) (snd kv))
         (Obj.set (ride_id e) r' (rides w))
    /\ NoDup (map (fun kv => sequenceNumber (snd kv))
                (Obj.set (ride_id e) r' (rides w)))
    /\ Obj.get "__proto__" (Obj.set (ride_id e) r' (rides w)) = None).
  { intros Np. split; [now apply NoDup_names_set |].
    split; [now apply Forall_set |].
    split; [| split].
    - apply Forall_set; [| exact Later].
      exists (messageSeq w). split; [reflexivity | lia].
    - apply NoDup_map_set; [| exact Hs].
      intros kv Hin E. rewrite Forall_forall in Ht.
      destruct (Ht kv Hin) as (n & Hn1 & Hn2).
      simpl in E. rewrite Hn1 in E. injection E as E. lia.
    - rewrite get_set_other; [exact Hq |].
      intros F. rewrite <- F in Np. now rewrite String.eqb_refl in Np. }
  destruct (tracked w (ride_id e) && (ride_status e =? "dropoff")%string).
  - repeat split; try assumption; try lia.
    + now apply NoDup_names_delete.
    + now apply Forall_delete.
    + now apply Forall_delete.
    + now apply NoDup_map_delete.
    + destruct (String.eqb_spec (ride_id e) "__proto__") as [P | P].
      * rewrite P. apply get_none_iff. intros F.
        apply names_delete_incl in F. now apply get_none_iff in Hq.
      * rewrite get_delete_other; [exact Hq | congruence].
  - destruct (ride_id e =? "__proto__")%string eqn:P.
    + repeat split; try assumption; lia.
    + destruct (Stored eq_refl) as (S1 & S2 & S3 & S4 & S5).
      repeat split; try assumption; lia.
Qed.

Lemma well_formed_initial : well_formed initial.
Proof.
  unfold well_formed, initial, maxNumRideCards. simpl.
  repeat split; try constructor; lia.
Qed.

Lemma well_formed_step (ev0 : Event) w :
  well_formed w -> well_formed (step w ev0).
Proof.
  intros W.
  pose proof W as (Hn & Hk & Ht & Hs & Hq & Hm & Hu & Hc).
  destruct ev0; unfold step.
  - unfold connect. destruct (ws w) as [[| | |] |];
      unfold well_formed, maxNumRideCards; simpl;
      repeat split; try constructor; try assumption; lia.
  - destruct (ws w) as [[| | |] |]; exact W.
  - destruct (ws w) as [s |]; exact W.
  - destruct (ws w) as [s |]; exact W.
  - now apply well_formed_processRide.
  - destruct (cycle_frame w) as (G & _).
    destruct (globals_fields _ _ G) as (G1 & _ & G3 & G4 & _ & _).
    assert (C : Z.of_nat (List.length (containerDiv (page (cycle w))))
                <= maxNumRideCards).
    { unfold cycle. destruct (ws w) as [[| | |] |]; try exact Hc.
      now apply cycle_loop_bound. }
    unfold well_formed. rewrite G1, G3, G4.
    now repeat split.
Qed.

(** Every reachable state is well formed. *)
Lemma reachable_invariant (es : list Event) : well_formed (run es initial).
Proof.
  assert (G : forall w, well_formed w -> well_formed (run es w)).
  { unfold run. induction es as [| ev0 es IH]; intros w W; simpl.
    - exact W.
    - apply IH. now apply well_formed_step. }
  apply G, well_formed_initial.
Qed.

Lemma In_skipn {A : Type} (x : A) (n : nat) (l : list A) :
  In x (skipn n l) -> In x l.
Proof.
  intros H. rewrite <- (firstn_skipn n l). apply in_or_app. now right.
Qed.

(** Every sampled key names an own property of the registry. *)
Lemma rideSample_tracked w k :
  In k (rideSample w) -> Obj.get k (rides w) <> None.
Proof.
  unfold rideSample, slice. intros H. apply In_skipn in H.
  apply (Permutation_in _ (Object_keys_perm (rides w))) in H.
  intros N. now apply get_none_iff in N.
Qed.

(** What the loop of [cycle] reads for a slot is a ride of the registry or
    [undefined], never a value of the prototype chain. *)
Lemma sampled_read w i :
  lookup w (nth i (rideSample w) "undefined")
  = match Obj.get (nth i (rideSample w) "undefined") (rides w) with
    | Some r => VRide r
    | None => VUndefined
    end.
Proof.
  destruct (Nat.lt_ge_cases i (List.length (rideSample w))) as [L | G].
  - pose proof (rideSample_tracked w _ (nth_In _ "undefined" L)) as T.
    destruct (Obj.get (nth i (rideSample w) "undefined") (rides w)) eqn:E;
      [| now elim T].
    now apply lookup_own.
  - rewrite nth_overflow by exact G. apply lookup_undefined.
Qed.

(** On a drawable ride neither [makePassengers] nor the conversion of the
    timestamp throws. *)
Lemma drawable_renders ride : drawable ride = true -> renders ride = true.
Proof.
  unfold drawable, renders, renders_passengers.
  intros H. apply andb_prop in H. destruct H as [-> M]. rewrite andb_true_r.
  destruct (passenger_count ride) as [q | | |]; try reflexivity;
    try discriminate.
  pose proof (makePassengers_finite q) as F.
  now destruct (makePassengers (Fin q)).
Qed.

Lemma all_render_sampled w i ride :
  all_render w = true ->
  lookup w (nth i (rideSample w) "undefined") = VRide ride ->
  renders ride = true.
Proof.
  unfold all_render. intros A L. rewrite sampled_read in L.
  destruct (Obj.get (nth i (rideSample w) "undefined") (rides w)) eqn:G;
    [| discriminate].
  injection L as <-. apply get_In in G.
  rewrite forallb_forall in A. apply drawable_renders. exact (A _ G).
Qed.

Lemma length_rideSample w :
  activeRides w = Z.of_nat (List.length (rides w)) ->
  (List.length (rideSample w) <= 9)%nat.
Proof.
  intros H. unfold rideSample, slice, maxNumRideCards.
  rewrite length_skipn, ObjFacts.length_Object_keys, H.
  destruct (Z.ltb_spec (Z.of_nat (List.length (rides w)) - 9) 0); lia.
Qed.

Lemma flat_map_nothing {A B : Type} (f : A -> list B) (l : list A) :
  (forall x, In x l -> f x = []) -> flat_map f l = [].
Proof.
  induction l as [| x l IH]; simpl; intros H.
  - reflexivity.
  - rewrite (H x) by now left. apply IH. intros y Hy. apply H. now right.
Qed.

(** A loop over slots [a], [a + 1], ... that handles the first [length l]
    of them pairs each with its element of [l]. *)
Lemma flat_map_slots (f : nat -> list (nat * string)) (l : list string) :
  forall (a n : nat),
    (forall j, (j < List.length l)%nat ->
               f (a + j)%nat = [((a + j)%nat, nth j l "undefined")]) ->
    (forall j, (List.length l <= j)%nat -> f (a + j)%nat = []) ->
    (List.length l <= n)%nat ->
    flat_map f (seq a n) = combine (seq a (List.length l)) l.
Proof.
  induction l as [| x l IH]; intros a n Hin Hout Hn.
  - simpl. apply flat_map_nothing. intros i Hi. apply in_seq in Hi.
    replace i with (a + (i - a))%nat by lia. apply Hout. simpl. lia.
  - destruct n as [| n]; [simpl in Hn; lia |].
    simpl. pose proof (Hin 0%nat) as H0. simpl in H0.
    rewrite Nat.add_0_r in H0. rewrite H0 by lia. simpl. f_equal.
    apply IH.
    + intros j Hj. replace (S a + j)%nat with (a + S j)%nat by lia.
      rewrite Hin by (simpl; lia). reflexivity.
    + intros j Hj. replace (S a + j)%nat with (a + S j)%nat by lia.
      apply Hout. simpl. lia.
    + simpl in Hn. lia.
Qed.

(** A tick on an open socket, when every ride of the registry can be drawn:
    no refresh throws, and every slot that reads a ride gets its call. *)
Lemma tick_calls w :
  ws w = Some OPEN -> all_render w = true ->
  presented (page (step w Tick))
  = (presented (page w) ++ flat_map (slot_call w) slots)%list
  /\ (Z.of_nat (List.length (containerDiv (page w))) <= maxNumRideCards ->
      Z.of_nat (List.length (containerDiv (page (step w Tick))))
      = Z.min maxNumRideCards
          (Z.of_nat (List.length (containerDiv (page w)))
           + Z.of_nat (List.length (flat_map (slot_call w) slots)))).
Proof.
  intros H A. unfold step, cycle. rewrite H.
  destruct (cycle_loop_calls (rideSample w) (seq 0 (Z.to_nat maxNumRideCards)) w)
    as (_ & P & C).
  - intros i ride. now apply all_render_sampled.
  - split; [exact P | exact C].
Qed.

End WellFormed.

(** X6. Whenever an event makes [processRide] show a notification, the
    message is the one composed from that event, and its icon is the icon
    [headerIcon] gives for the status of the event. *)
Theorem alert_icon_is_header_icon (e : Ride) (w : World) (f : Flash) :
  presented (page (processRide e w))
  = (presented (page w) ++ [Flashed f])%list ->
  f = alert_of e /\ flash_icon f = headerIcon (ride_status e).
Proof.
  rewrite processRide_presented. intros H.
  assert (Grow : forall (l : list Call) c, l = (l ++ [c])%list -> False).
  { intros l c E. apply (f_equal (@List.length _)) in E.
    rewrite length_app in E. simpl in E. lia. }
  destruct (tracked w (ride_id e)); [| now elim (Grow _ _ H)].
  destruct (String.eqb_spec (ride_status e) "dropoff") as [Ed | Ed].
  - simpl in H. apply app_inv_head in H. injection H as <-.
    split; [reflexivity |]. unfold alert_of, headerIcon. simpl.
    now rewrite Ed.
  - destruct (String.eqb_spec (ride_status e) "pickup") as [Ep | Ep].
    + simpl in H. apply app_inv_head in H. injection H as <-.
      split; [reflexivity |]. unfold alert_of, headerIcon. simpl.
      now rewrite Ep.
    + simpl in H. now elim (Grow _ _ H).
Qed.

Lemma alert_icon_is_header_icon_witness :
  flash_icon (alert_of (ev "a" "dropoff" 2 7)) = headerIcon "dropoff".
Proof.
  refine (proj2 (alert_icon_is_header_icon
                   (ev "a" "dropoff" 2 7)
                   (run (feed [ev "a" "pickup" 2 0]) connected)
                   (alert_of (ev "a" "dropoff" 2 7)) _)).
  vm_compute. reflexivity.
Defined.

(** X7. In every reachable state [Object.keys] of the registry lists no
    identifier twice, and the record found under an identifier is a record
    of that identifier. *)
Theorem registry_entries_are_keyed_once (es : list Event) :
  let w := run es initial in
  NoDup (Obj.Object_keys (rides w))
  /\ (forall k r, Obj.get k (rides w) = Some r -> ride_id r = k).
Proof.
  intros w.
  destruct (reachable_invariant es) as (Hn & Hk & _). fold w in Hn, Hk.
  split.
  - eapply Permutation_NoDup; [| exact Hn].
    apply Permutation_sym, RegistryFacts.Object_keys_perm.
  - intros k r G. apply RegistryFacts.get_In in G.
    rewrite Forall_forall in Hk. exact (Hk _ G).
Qed.

(** X8. In every reachable state each record of the registry carries a
    sequence number, not negative and below [messageSeq], and two different
    identifiers never carry the same one. *)
Theorem sequence_numbers_are_fresh (es : list Event) :
  let w := run es initial in
  (forall k r, Obj.get k (rides w) = Some r ->
     exists n, sequenceNumber r = Some n /\ 0 <= n < messageSeq w)
  /\ (forall k1 k2 r1 r2,
        Obj.get k1 (rides w) = Some r1 -> Obj.get k2 (rides w) = Some r2 ->
        sequenceNumber r1 = sequenceNumber r2 -> k1 = k2).
Proof.
  intros w.
  destruct (reachable_invariant es) as (_ & _ & Ht & Hs & _).
  fold w in Ht, Hs. split.
  - intros k r G. apply RegistryFacts.get_In in G.
    rewrite Forall_forall in Ht. exact (Ht _ G).
  - intros k1 k2 r1 r2 G1 G2 E.
    apply RegistryFacts.get_In in G1, G2.
    pose proof (RegistryFacts.NoDup_map_inj
                  (fun kv => sequenceNumber (snd kv))
                  (k1, r1) (k2, r2) (rides w) Hs G1 G2 E) as I.
    now injection I.
Qed.

(** X9. After an event that is not a dropoff, [rides[ride_id]] reads that
    very event, tagged with the sequence number [messageSeq] had: it is
    stored as an own property or, under the name [__proto__], as the
    prototype, which the same name reads back.  The own property of every
    other identifier is unchanged, and [messageSeq] has grown by one. *)
Theorem registry_returns_latest_event (e : Ride) (w : World) :
  ride_status e <> "dropoff" ->
  (ride_id e <> "__proto__" ->
   Obj.get (ride_id e) (rides (processRide e w))
   = Some (set_sequenceNumber (messageSeq w) e))
  /\ (Obj.get "__proto__" (rides w) = None ->
      lookup (processRide e w) (ride_id e)
      = VRide (set_sequenceNumber (messageSeq w) e))
  /\ (forall k, k <> ride_id e ->
        Obj.get k (rides (processRide e w)) = Obj.get k (rides w))
  /\ messageSeq (processRide e w) = messageSeq w + 1.
Proof.
  intros Hst. apply String.eqb_neq in Hst.
  unfold lookup.
  rewrite processRide_rides, processRide_rides_proto, processRide_messageSeq,
    Hst, andb_false_r.
  split; [| split; [| split]].
  - intros Np. apply String.eqb_neq in Np.
    rewrite rides_assign, Np. apply ObjFacts.get_set_same.
  - intros Hq. now apply lookup_assigned.
  - intros k Hk. rewrite rides_assign.
    destruct (ride_id e =? "__proto__")%string; [reflexivity |].
    now apply RegistryFacts.get_set_other.
  - reflexivity.
Qed.

Lemma registry_returns_latest_event_witness :
  let w := run (feed [ev "a" "pickup" 2 0; ev "b" "pickup" 1 0]) connected in
  let e := ev "a" "enroute" 2 (11 # 2) in
  Obj.get "a" (rides (processRide e w)) = Some (set_sequenceNumber 2 e).
Proof.
  refine (proj1 (registry_returns_latest_event
                   (ev "a" "enroute" 2 (11 # 2))
                   (run (feed [ev "a" "pickup" 2 0; ev "b" "pickup" 1 0])
                      connected) _) _).
  - discriminate.
  - discriminate.
Defined.

(** X10. In every reachable state, the dropoff of a tracked ride removes
    its identifier from the registry, leaves every other identifier as it
    was, lowers the active count by one and assigns no sequence number. *)
Theorem tracked_dropoff_removes_ride (es : list Event) (e : Ride) :
  let w := run es initial in
  ride_status e = "dropoff" ->
  Obj.get (ride_id e) (rides w) <> None ->
  Obj.get (ride_id e) (rides (processRide e w)) = None
  /\ (forall k, k <> ride_id e ->
        Obj.get k (rides (processRide e w)) = Obj.get k (rides w))
  /\ activeRides (processRide e w) = activeRides w - 1
  /\ messageSeq (processRide e w) = messageSeq w.
Proof.
  intros w Hst Hin.
  destruct (reachable_invariant es) as (Hn & _). fold w in Hn.
  rewrite processRide_rides, processRide_activeRides, processRide_messageSeq.
  rewrite (tracked_own w _ Hin), Hst. simpl.
  split; [now apply RegistryFacts.get_delete_same |].
  split; [| now split].
  intros k Hk. now apply RegistryFacts.get_delete_other.
Qed.

Lemma tracked_dropoff_removes_ride_witness :
  let w := run [Toggle; SocketOpen; Message (ev "a" "pickup" 2 0);
                Message (ev "b" "pickup" 1 0)] initial in
  let e := ev "a" "dropoff" 2 7 in
  Obj.get "a" (rides (processRide e w)) = None.
Proof.
  refine (proj1 (tracked_dropoff_removes_ride
                   [Toggle; SocketOpen; Message (ev "a" "pickup" 2 0);
                    Message (ev "b" "pickup" 1 0)]
                   (ev "a" "dropoff" 2 7) _ _)).
  - reflexivity.
  - vm_compute. discriminate.
Defined.

(** X11. The first event of an identifier for which [rides[ride_id]] reads
    nothing -- it is not in the registry and the prototype chain has no
    property of that name -- when it is not a dropoff, puts the identifier
    last in the creation order of the registry, raises the active count by
    one, adds the passenger count and the meter reading of the event to the
    totals, and shows no notification.  On an object whose prototype is
    [Object.prototype] these are the identifiers that are not in the
    registry and name no property of [Object.prototype]. *)
Theorem first_sighting_registers_ride (e : Ride) (w : World) :
  tracked w (ride_id e) = false ->
  ride_status e <> "dropoff" ->
  Obj.names (rides (processRide e w)) = (Obj.names (rides w) ++ [ride_id e])%list
  /\ activeRides (processRide e w) = activeRides w + 1
  /\ totalPassengers (processRide e w)
     = add (totalPassengers w) (passenger_count e)
  /\ totalMeter (processRide e w) = add (totalMeter w) (meter_reading e)
  /\ presented (page (processRide e w)) = presented (page w)
  /\ (rides_proto w = None ->
      Obj.get (ride_id e) (rides w) = None /\ inherited (ride_id e) = false).
Proof.
  intros G Hst. apply String.eqb_neq in Hst.
  destruct (first_sighting_totals e w G Hst) as [Tm Tp].
  rewrite processRide_rides, processRide_activeRides, processRide_presented, G.
  rewrite rides_assign, (untracked_not_proto _ _ G).
  repeat split; try assumption.
  - apply ObjFacts.names_set_absent. now apply untracked_absent.
  - now apply untracked_absent.
  - pose proof (untracked_absent _ _ G) as A.
    unfold tracked, lookup, read in G. rewrite H, A in G.
    now destruct (inherited (ride_id e)).
Qed.

Lemma first_sighting_registers_ride_witness :
  let w := run (feed [ev "a" "pickup" 2 0]) connected in
  let e := ev "b" "enroute" 1 (11 # 2) in
  Obj.names (rides (processRide e w)) = ["a"; "b"].
Proof.
  refine (proj1 (first_sighting_registers_ride
                   (ev "b" "enroute" 1 (11 # 2))
                   (run (feed [ev "a" "pickup" 2 0]) connected) _ _)).
  - vm_compute. reflexivity.
  - discriminate.
Defined.

(** X12. On an open socket [totalUpdates] grows by one with every event of
    the feed, whatever the event is: after a feed of [n] events it has
    grown by [n]. *)
Theorem totalUpdates_counts_events (rs : list Ride) (w : World) :
  ws w = Some OPEN ->
  totalUpdates (run (feed rs) w) = totalUpdates w + Z.of_nat (List.length rs).
Proof.
  intros _. rewrite run_feed. revert w.
  induction rs as [| e rs IH]; intros w; simpl List.length.
  - simpl. lia.
  - cbn [fold_left]. rewrite IH, processRide_totalUpdates. lia.
Qed.

Lemma totalUpdates_counts_events_witness :
  totalUpdates (run (feed [ev "a" "pickup" 2 0; ev "zz" "dropoff" 1 3;
                           ev "a" "dropoff" 2 7]) connected)
  = totalUpdates connected + 3.
Proof.
  refine (totalUpdates_counts_events
            [ev "a" "pickup" 2 0; ev "zz" "dropoff" 1 3; ev "a" "dropoff" 2 7]
            connected _).
  reflexivity.
Defined.

(** X13. In every reachable state the card container holds at most
    [maxNumRideCards] cards. *)
Theorem container_holds_at_most_nine_cards (es : list Event) :
  Z.of_nat (List.length (containerDiv (page (run es initial))))
  <= maxNumRideCards.
Proof.
  now destruct (reachable_invariant es) as (_ & _ & _ & _ & _ & _ & _ & H).
Qed.

(** X14. In every reachable state the count of processed events and the
    next sequence number are not negative; so is the active count in every
    state reached through events whose ride identifiers name no property of
    [Object.prototype]. *)
Theorem counters_are_never_negative (es : list Event) :
  let w := run es initial in
  0 <= totalUpdates w
  /\ 0 <= messageSeq w
  /\ (plain es = true -> 0 <= activeRides w).
Proof.
  intros w.
  destruct (reachable_invariant es) as (_ & _ & _ & _ & _ & Hm & Hu & _).
  split; [exact Hu |]. split; [exact Hm |].
  intros Hes.
  destruct (plain_state_run es initial Hes plain_state_initial) as (_ & _ & Ha).
  fold w in Ha. lia.
Qed.

(** X15. A tick changes no variable of the script, and on the page neither
    the alert nor the statistic labels; unless the socket is open it changes
    nothing at all. *)
Theorem tick_touches_cards_only (w : World) :
  globals (step w Tick) = globals w
  /\ alert_message (page (step w Tick)) = alert_message (page w)
  /\ alert_opacity (page (step w Tick)) = alert_opacity (page w)
  /\ statLabels (page (step w Tick)) = statLabels (page w)
  /\ (ws w <> Some OPEN -> step w Tick = w).
Proof.
  destruct (cycle_frame w) as (G & A & O & L).
  repeat split; try assumption.
  unfold step, cycle.
  destruct (ws w) as [[| | |] |] eqn:E; try reflexivity.
  intros H. now elim H.
Qed.

(** X16. A connect wipes the history: from two states in which the socket
    is not open, a click on the connect control followed by the same events
    leads to the same values of all variables of the script. *)
Theorem connect_forgets_history (es : list Event) (w1 w2 : World) :
  ws w1 <> Some OPEN -> ws w2 <> Some OPEN ->
  globals (run (Toggle :: es) w1) = globals (run (Toggle :: es) w2).
Proof.
  intros H1 H2. unfold run. cbn [fold_left]. apply run_globals.
  unfold step, connect.
  destruct (ws w1) as [[| | |] |]; try (now elim H1);
    destruct (ws w2) as [[| | |] |]; try (now elim H2); reflexivity.
Qed.

Lemma connect_forgets_history_witness :
  globals (run (Toggle :: SocketOpen :: feed [ev "b" "pickup" 1 3])
             (run [Toggle; SocketOpen; Message (ev "a" "pickup" 2 7); Toggle]
                initial))
  = globals (run (Toggle :: SocketOpen :: feed [ev "b" "pickup" 1 3]) initial).
Proof.
  refine (connect_forgets_history
            (SocketOpen :: feed [ev "b" "pickup" 1 3])
            (run [Toggle; SocketOpen; Message (ev "a" "pickup" 2 7); Toggle]
               initial)
            initial _ _).
  - vm_compute. discriminate.
  - vm_compute. discriminate.
Defined.

Section Sampler.
Import RegistryFacts.

Lemma refreshes_flat_map (g : nat -> list Call) (l : list nat) :
  refreshes (flat_map g l) = flat_map (fun i => refreshes (g i)) l.
Proof.
  unfold refreshes. induction l as [| i l IH]; simpl.
  - reflexivity.
  - now rewrite flat_map_app, IH.
Qed.

(** The call of a slot, read off the own properties. *)
Lemma slot_call_own (w : World) (i : nat) :
  slot_call w i
  = match Obj.get (nth i (rideSample w) "undefined") (rides w) with
    | Some r => [Refreshed i r]
    | None => []
    end.
Proof.
  unfold slot_call. rewrite sampled_read.
  now destruct (Obj.get (nth i (rideSample w) "undefined") (rides w)).
Qed.

(** Once a turn of the loop of [cycle] has thrown, the loop is over. *)
Lemma cycle_loop_thrown sample (l : list nat) (w : World) :
  fold_left (cycle_body sample) l (w, true) = (w, true).
Proof. induction l as [| i l IH]; [reflexivity | exact IH]. Qed.

End Sampler.

(** X17. On a tick with the socket open, in any reachable state in which
    every ride of the registry can be drawn on a card (its timestamp is a
    date and its passenger count is at most a million), the presentation
    receives one refresh call per slot that has a ride, in slot
    order, each with the record the registry holds under the identifier of
    that record; and when the state was reached through events whose ride
    identifiers name no property of [Object.prototype] and no ride is named
    "undefined", the calls are those of slots 0, 1, ... paired with the
    sampled keys in order. *)
Theorem tick_refreshes_the_sample (es : list Event) :
  let w := run es initial in
  let calls := flat_map (slot_call w) slots in
  ws w = Some OPEN ->
  all_render w = true ->
  presented (page (step w Tick)) = (presented (page w) ++ calls)%list
  /\ Forall (fun c => match c with
                      | Refreshed i r => Obj.get (ride_id r) (rides w) = Some r
                      | Flashed _ => False
                      end) calls
  /\ (plain es = true ->
      Obj.get "undefined" (rides w) = None ->
      refreshes calls
      = combine (seq 0 (List.length (rideSample w))) (rideSample w)).
Proof.
  intros w calls Hws Hr.
  destruct (reachable_invariant es) as (_ & Hk & _).
  fold w in Hk.
  assert (Keyed : forall k r, Obj.get k (rides w) = Some r -> ride_id r = k).
  { intros k r G. apply RegistryFacts.get_In in G.
    rewrite Forall_forall in Hk. exact (Hk _ G). }
  split; [exact (proj1 (tick_calls w Hws Hr)) |]. split.
  - unfold calls. apply Forall_flat_map. apply Forall_forall.
    intros i _. rewrite slot_call_own.
    destruct (Obj.get (nth i (rideSample w) "undefined") (rides w))
      as [r |] eqn:G; [| constructor].
    constructor; [| constructor].
    now rewrite (Keyed _ _ G).
  - intros Hes Hu.
    destruct (plain_state_run es initial Hes plain_state_initial) as (Hc & _).
    fold w in Hc.
    unfold calls. rewrite refreshes_flat_map.
    apply (flat_map_slots _ (rideSample w) 0%nat).
    + intros j Hj. simpl. rewrite slot_call_own.
      destruct (Obj.get (nth j (rideSample w) "undefined") (rides w))
        as [r |] eqn:G.
      * simpl. now rewrite (Keyed _ _ G).
      * elim (rideSample_tracked w (nth j (rideSample w) "undefined"));
          [now apply nth_In | exact G].
    + intros j Hj. simpl. rewrite slot_call_own.
      rewrite nth_overflow by exact Hj. now rewrite Hu.
    + unfold slots, maxNumRideCards.
      apply length_rideSample. apply Hc. congruence.
Qed.

Lemma tick_refreshes_the_sample_witness :
  let w := run [Toggle; SocketOpen; Message (ev "a" "pickup" 1 0);
                Message (ev "7" "pickup" 1 0); Message (ev "c" "enroute" 1 0)]
             initial in
  refreshes (flat_map (slot_call w) slots)
  = combine (seq 0 (List.length (rideSample w))) (rideSample w).
Proof.
  refine (proj2 (proj2 (tick_refreshes_the_sample
            [Toggle; SocketOpen; Message (ev "a" "pickup" 1 0);
             Message (ev "7" "pickup" 1 0); Message (ev "c" "enroute" 1 0)]
            _ _)) _ _).
  - vm_compute. reflexivity.
  - vm_compute. reflexivity.
  - vm_compute. reflexivity.
  - vm_compute. reflexivity.
Defined.

(** X18. The loop of [cycle] reads slots past the end of the sample as the
    key "undefined".  While a ride of that name is tracked, and every ride
    of the registry can be drawn on a card, a tick on an open socket
    therefore refreshes all nine slots, and every slot past the sample shows
    that ride. *)
Theorem ride_named_undefined_fills_every_slot (w : World) (r : Ride) :
  ws w = Some OPEN ->
  all_render w = true ->
  Obj.get "undefined" (rides w) = Some r ->
  presented (page (step w Tick))
  = (presented (page w) ++ flat_map (slot_call w) slots)%list
  /\ List.length (flat_map (slot_call w) slots) = 9%nat
  /\ (forall i, (List.length (rideSample w) <= i)%nat ->
        slot_call w i = [Refreshed i r]).
Proof.
  intros Hws Hr Hu. split; [exact (proj1 (tick_calls w Hws Hr)) |].
  assert (Past : forall i, (List.length (rideSample w) <= i)%nat ->
                           slot_call w i = [Refreshed i r]).
  { intros i Hi. rewrite slot_call_own. rewrite nth_overflow by exact Hi.
    now rewrite Hu. }
  split; [| exact Past].
  assert (One : forall i, List.length (slot_call w i) = 1%nat).
  { intros i.
    destruct (Nat.lt_ge_cases i (List.length (rideSample w))) as [L | G].
    - rewrite slot_call_own.
      destruct (Obj.get (nth i (rideSample w) "undefined") (rides w)) eqn:E;
        [reflexivity |].
      elim (rideSample_tracked w (nth i (rideSample w) "undefined"));
        [now apply nth_In | exact E].
    - now rewrite Past. }
  unfold slots, maxNumRideCards.
  generalize (seq 0 (Z.to_nat 9)) (length_seq (Z.to_nat 9) 0).
  intros l Hl. replace 9%nat with (List.length l) by (rewrite Hl; reflexivity).
  clear Hl. induction l as [| i l IH]; simpl; [reflexivity |].
  now rewrite length_app, One, IH.
Qed.

Lemma ride_named_undefined_fills_every_slot_witness :
  let w := run (feed [ev "undefined" "pickup" 1 0]) connected in
  List.length (flat_map (slot_call w) slots) = 9%nat.
Proof.
  refine (proj1 (proj2 (ride_named_undefined_fills_every_slot
            (run (feed [ev "undefined" "pickup" 1 0]) connected)
            (set_sequenceNumber 0 (ev "undefined" "pickup" 1 0)) _ _ _))).
  - vm_compute. reflexivity.
  - vm_compute. reflexivity.
  - vm_compute. reflexivity.
Defined.

(** X19. On a tick with the socket open, in any reachable state in which
    every ride of the registry can be drawn on a card, each refresh call
    adds a card while the container holds fewer than nine and rewrites a
    card after: the container ends with the smaller of nine and its former
    number of cards plus the number of calls. *)
Theorem tick_fills_the_container (es : list Event) :
  let w := run es initial in
  ws w = Some OPEN ->
  all_render w = true ->
  Z.of_nat (List.length (containerDiv (page (step w Tick))))
  = Z.min maxNumRideCards
      (Z.of_nat (List.length (containerDiv (page w)))
       + Z.of_nat (List.length (flat_map (slot_call w) slots))).
Proof.
  intros w Hws Hr.
  destruct (reachable_invariant es) as (_ & _ & _ & _ & _ & _ & _ & Hc).
  fold w in Hc.
  exact (proj2 (tick_calls w Hws Hr) Hc).
Qed.

Lemma tick_fills_the_container_witness :
  let w := run [Toggle; SocketOpen; Message (ev "a" "pickup" 1 0);
                Message (ev "b" "pickup" 1 0); Tick] initial in
  Z.of_nat (List.length (containerDiv (page (step w Tick))))
  = Z.min maxNumRideCards
      (Z.of_nat (List.length (containerDiv (page w)))
       + Z.of_nat (List.length (flat_map (slot_call w) slots))).
Proof.
  refine (tick_fills_the_container
            [Toggle; SocketOpen; Message (ev "a" "pickup" 1 0);
             Message (ev "b" "pickup" 1 0); Tick] _ _).
  - vm_compute. reflexivity.
  - vm_compute. reflexivity.
Defined.

(** X20. After any event on a reachable state, the identifier of the event
    is an own property of the registry, with two exceptions: the event is a
    dropoff and [rides[ride_id]] read as tracked when it arrived, or the
    identifier is [__proto__], which never becomes an own property. *)
Theorem ride_is_tracked_after_event (es : list Event) (e : Ride) :
  let w := run es initial in
  Obj.get (ride_id e) (rides (processRide e w)) = None
  <-> (ride_status e = "dropoff" /\ tracked w (ride_id e) = true)
      \/ ride_id e = "__proto__".
Proof.
  intros w.
  destruct (reachable_invariant es) as (Hn & _ & _ & _ & Hq & _).
  fold w in Hn, Hq.
  rewrite processRide_rides, rides_assign.
  destruct (tracked w (ride_id e)) eqn:T;
    [destruct (String.eqb_spec (ride_status e) "dropoff") as [Ed | Ed] |];
    cbn [andb].
  - split; [intros _; left; now split |].
    intros _. now apply RegistryFacts.get_delete_same.
  - destruct (String.eqb_spec (ride_id e) "__proto__") as [P | P].
    + rewrite P. split; [intros _; now right | intros _; exact Hq].
    + rewrite ObjFacts.get_set_same.
      split; [discriminate | intros [[H _] | H]; contradiction].
  - rewrite (untracked_not_proto _ _ T), ObjFacts.get_set_same.
    split; [discriminate |].
    intros [[_ H] | H]; [discriminate |].
    rewrite H, tracked_proto in T. discriminate.
Qed.

Section Alert.
Implicit Types (w : World).

Lemma step_keeps_alert (ev0 : Event) w :
  ev0 <> Toggle ->
  alert_opacity (page w) = 1 -> alert_opacity (page (step w ev0)) = 1.
Proof.
  intros Ht H. destruct ev0; unfold step.
  - now elim Ht.
  - now destruct (ws w) as [[| | |] |].
  - now destruct (ws w).
  - now destruct (ws w).
  - pose proof (processRide_alert ride w) as A.
    destruct (_ && _); injection A as _ A; rewrite A; [reflexivity | exact H].
  - now rewrite (proj1 (proj2 (proj2 (cycle_frame w)))).
Qed.

End Alert.

(** X21. Nothing but a click on the connect control hides the alert: once
    it is visible it stays visible through every message, tick and socket
    event. *)
Theorem alert_stays_visible (es : list Event) (w : World) :
  Forall (fun ev0 => ev0 <> Toggle) es ->
  alert_opacity (page w) = 1 ->
  alert_opacity (page (run es w)) = 1.
Proof.
  unfold run. intros H. revert w.
  induction H as [| ev0 es Hev _ IH]; intros w Hw; simpl.
  - exact Hw.
  - apply IH. now apply step_keeps_alert.
Qed.

Lemma alert_stays_visible_witness :
  alert_opacity
    (page (run [Message (ev "b" "pickup" 1 0); Tick; SocketClose]
             (run (feed [ev "a" "pickup" 2 0; ev "a" "dropoff" 2 7]) connected)))
  = 1.
Proof.
  refine (alert_stays_visible
            [Message (ev "b" "pickup" 1 0); Tick; SocketClose]
            (run (feed [ev "a" "pickup" 2 0; ev "a" "dropoff" 2 7]) connected)
            _ _).
  - repeat constructor; discriminate.
  - vm_compute. reflexivity.
Defined.

(** X22. Once the container holds nine cards a refresh creates no card and
    changes no card index: it rewrites the first card that carries the slot
    index, and when no card carries it the container stays as it is. *)
Theorem full_container_keeps_its_slots (ride : Ride) (i : nat) (w : World) :
  maxNumRideCards <= Z.of_nat (List.length (containerDiv (page w))) ->
  map card_index (containerDiv (page (refreshCard ride i w)))
  = map card_index (containerDiv (page w))
  /\ (~ In i (map card_index (containerDiv (page w))) ->
      containerDiv (page (refreshCard ride i w)) = containerDiv (page w)).
Proof.
  intros H. unfold refreshCard, refreshCard_outcome. simpl.
  destruct (Z.ltb_spec (Z.of_nat (List.length (containerDiv (page w))))
              maxNumRideCards) as [L | L]; [lia |].
  split.
  - pose proof (rewriteCard_indices ride i (containerDiv (page w))) as E.
    now destruct (rewriteCard ride i (containerDiv (page w))).
  - intros N. now rewrite (rewriteCard_missing ride i _ N).
Qed.

(** One ride tracked through nine ticks, then a second ride. *)
Lemma full_container_keeps_its_slots_witness :
  let w := run [Toggle; SocketOpen; Message (ev "a" "pickup" 1 0);
                Tick; Tick; Tick; Tick; Tick; Tick; Tick; Tick; Tick;
                Message (ev "b" "pickup" 2 0)] initial in
  map card_index (containerDiv (page w)) = [0; 0; 0; 0; 0; 0; 0; 0; 0]%nat
  /\ containerDiv (page (refreshCard (ev "b" "pickup" 2 0) 1 w))
     = containerDiv (page w).
Proof.
  split; [vm_compute; reflexivity |].
  refine (proj2 (full_container_keeps_its_slots
                   (ev "b" "pickup" 2 0) 1
                   (run [Toggle; SocketOpen; Message (ev "a" "pickup" 1 0);
                         Tick; Tick; Tick; Tick; Tick; Tick; Tick; Tick; Tick;
                         Message (ev "b" "pickup" 2 0)] initial) _) _).
  - vm_compute. discriminate.
  - vm_compute. intuition discriminate.
Defined.

(** X23. With no time elapsed [calculateMessageRate] divides by zero and
    prints what the division gives: NaN for a count of zero, Infinity for a
    positive count, -Infinity for a negative one. *)
Theorem rate_over_zero_seconds (count seconds : Q) :
  (seconds == 0)%Q ->
  calculateMessageRate (Fin count) (Fin seconds) = by_zero count
  /\ ((0 < count)%Q ->
      calculateMessageRate (Fin count) (Fin seconds) = "Infinity")
  /\ ((count == 0)%Q ->
      calculateMessageRate (Fin count) (Fin seconds) = "NaN").
Proof.
  intros H. unfold calculateMessageRate.
  rewrite (toFixed2_div_zero count seconds H).
  split; [reflexivity |]. unfold by_zero. split; intros C.
  - now rewrite (sgn_pos count C).
  - now rewrite (sgn_zero count C).
Qed.

Lemma rate_over_zero_seconds_witness :
  calculateMessageRate (Fin 1) (Fin 0) = "Infinity".
Proof.
  refine (proj1 (proj2 (rate_over_zero_seconds 1 0 _)) _); reflexivity.
Defined.

(** X24. [processRide] shows a notification exactly when [rides[ride_id]]
    reads as tracked and the status of the event is pickup or dropoff.  The
    alert then shows the message composed from the event, with the pickup or
    the dropoff icon, and is visible; in every other case neither the calls
    nor the alert change.  On an object whose prototype is
    [Object.prototype], an identifier that names none of its properties
    reads as tracked exactly when it is in the registry. *)
Theorem notification_iff_read_tracked (e : Ride) (w : World) :
  let before := presented (page w) in
  let after := presented (page (processRide e w)) in
  let alert := fun w0 => (alert_message (page w0), alert_opacity (page w0)) in
  let known := tracked w (ride_id e) = true in
  let signal := ride_status e = "pickup" \/ ride_status e = "dropoff" in
  ((exists f, after = (before ++ [Flashed f])%list) <-> known /\ signal)
  /\ (known /\ signal ->
      after = (before ++ [Flashed (alert_of e)])%list
      /\ alert (processRide e w) = (Some (alert_of e), 1)
      /\ flash_icon (alert_of e) = headerIcon (ride_status e)
      /\ flash_title (alert_of e) = ride_status e
      /\ flash_ride (alert_of e) = ride_id e)
  /\ (~ (known /\ signal) ->
      after = before /\ alert (processRide e w) = alert w)
  /\ (rides_proto w = None -> inherited (ride_id e) = false ->
      (known <-> Obj.get (ride_id e) (rides w) <> None)).
Proof.
  intros before after alert known signal.
  assert (Hafter : after = presented (page (processRide e w))) by reflexivity.
  assert (Halert : alert (processRide e w)
                   = (alert_message (page (processRide e w)),
                      alert_opacity (page (processRide e w)))) by reflexivity.
  rewrite processRide_presented in Hafter. fold before in Hafter.
  rewrite processRide_alert in Halert.
  assert (Hgrow : forall (l : list Call) c, l <> (l ++ [c])%list).
  { intros l c H. apply (f_equal (@List.length _)) in H.
    rewrite length_app in H. simpl in H. lia. }
  assert (Dec : known /\ signal
                <-> tracked w (ride_id e)
                    && ((ride_status e =? "dropoff") || (ride_status e =? "pickup"))%string
                    = true).
  { unfold known, signal.
    rewrite andb_true_iff, orb_true_iff, !String.eqb_eq. tauto. }
  clearbody after. unfold before in *.
  destruct (tracked w (ride_id e)
            && ((ride_status e =? "dropoff") || (ride_status e =? "pickup"))%string)
    eqn:B.
  - assert (K : known /\ signal) by now apply Dec.
    split; [| split; [| split]].
    + split; [intros _; exact K | intros _; now exists (alert_of e)].
    + intros _. split; [exact Hafter |]. split; [exact Halert |].
      unfold alert_of, headerIcon. simpl.
      destruct K as [_ [Ep | Ed]].
      * rewrite Ep. now repeat split.
      * rewrite Ed. now repeat split.
    + intros N. now elim N.
    + intros Hp Hi. unfold known. rewrite (tracked_plain w _ Hp Hi).
      destruct K as [K _]. unfold known in K.
      rewrite (tracked_plain w _ Hp Hi) in K.
      destruct (Obj.get (ride_id e) (rides w)); [| discriminate].
      split; [discriminate | reflexivity].
  - assert (K : ~ (known /\ signal)).
    { intros K. apply Dec in K. discriminate. }
    split; [| split; [| split]].
    + split; [| intros H; now elim K].
      intros [f Hf]. rewrite Hafter in Hf. now elim (Hgrow _ _ Hf).
    + intros H. now elim K.
    + intros _. split; [exact Hafter | exact Halert].
    + intros Hp Hi. unfold known. rewrite (tracked_plain w _ Hp Hi).
      destruct (Obj.get (ride_id e) (rides w)).
      * split; [discriminate | reflexivity].
      * split; [discriminate | intros H; now elim H].
Qed.

(** The name [__proto__] never becomes an own property: a first pickup
    under that name is notified, is not counted, and replaces the prototype
    of the registry, through which the name reads the event back. *)
Example proto_name_is_stored_as_prototype :
  let e := ev "__proto__" "pickup" 2 0 in
  let w := processRide e connected in
  Obj.names (rides w) = []
  /\ activeRides w = 0
  /\ presented (page w) = [Flashed (alert_of e)]
  /\ lookup w "__proto__" = VRide (set_sequenceNumber 0 e)
  /\ tracked w "latitude" = true
  /\ tracked w "altitude" = false.
Proof. vm_compute. repeat split. Qed.

(** X25. A tick stops at a refresh that throws.  On an open socket, with
    room left in the container, when the ride of the first slot cannot be
    drawn on a card (its timestamp is not a date, or [makePassengers] does
    not come back on its passenger count), the tick makes that one refresh
    call, adds no card, and makes no call for any later slot. *)
Theorem tick_stops_at_a_ride_that_cannot_be_drawn (w : World) (r : Ride) :
  ws w = Some OPEN ->
  Z.of_nat (List.length (containerDiv (page w))) < maxNumRideCards ->
  lookup w (nth 0 (rideSample w) "undefined") = VRide r ->
  renders r = false ->
  presented (page (step w Tick)) = (presented (page w) ++ [Refreshed 0 r])%list
  /\ containerDiv (page (step w Tick)) = containerDiv (page w).
Proof.
  intros Hws Hroom Hr Hd. unfold step, cycle. rewrite Hws.
  change (seq 0 (Z.to_nat maxNumRideCards)) with (0%nat :: seq 1 8).
  cbn [fold_left].
  replace (cycle_body (rideSample w) (w, false) 0)
    with (match lookup w (nth 0 (rideSample w) "undefined") with
          | VRide ride => refreshCard_outcome ride 0 w
          | _ => (w, false)
          end) by reflexivity.
  rewrite Hr. unfold refreshCard_outcome. cbn [page upd_page upd_presented
    containerDiv presented].
  apply Z.ltb_lt in Hroom. rewrite Hroom, Hd.
  rewrite cycle_loop_thrown. split; reflexivity.
Qed.

Lemma tick_stops_at_a_ride_that_cannot_be_drawn_witness :
  let w := run (feed [undated (ev "a" "pickup" 1 0); ev "b" "pickup" 1 0])
               connected in
  presented (page (step w Tick))
  = (presented (page w)
     ++ [Refreshed 0 (set_sequenceNumber 0 (undated (ev "a" "pickup" 1 0)))])%list
  /\ containerDiv (page (step w Tick)) = containerDiv (page w).
Proof.
  refine (tick_stops_at_a_ride_that_cannot_be_drawn
            (run (feed [undated (ev "a" "pickup" 1 0); ev "b" "pickup" 1 0])
               connected)
            (set_sequenceNumber 0 (undated (ev "a" "pickup" 1 0))) _ _ _ _).
  - vm_compute. reflexivity.
  - vm_compute. reflexivity.
  - vm_compute. reflexivity.
  - vm_compute. reflexivity.
Defined.
